(** * Element data of StellarGraph: identifier indices, typed element
    stores, node features and edge adjacency

    A shallow embedding of [stellargraph/core/element_data.py]:
    [ExternalIdIndex], [ElementData], [NodeData] and [EdgeData].

    Integer locations (ilocs) are [Z]; a numpy integer array is a [list Z]
    whose wrap-around on [astype] is written out, and an [ndarray] that
    carries its dtype where the arithmetic of the code depends on it; a
    Python [dict] is a [gmap]; a raised exception is the [Raise] case of
    [result]. *)

From stdpp Require Import base numbers option list list_numbers strings pretty gmap sorting.

Local Open Scope Z_scope.

#[local] Set Warnings "-clear-no-such-hyp".

(** ** Python values and exceptions *)

(** External identifiers are hashable Python values: integers and strings. *)
Inductive ident : Type :=
  | IdInt (z : Z)
  | IdStr (s : string).

Global Instance ident_eq_dec : EqDecision ident.
Proof. solve_decision. Defined.

(** An entry of the numpy array that [np.asarray] makes from a Python list
    of identifiers. numpy gives the whole array one element type, chosen
    from all the elements: strings for a list of strings and for a list
    that mixes strings and integers, 64-bit integers for integers that all
    fit, floats or Python objects for other lists of integers. *)
Inductive np_scalar : Type :=
  | np_str (s : string)
  | np_int (z : Z)
  | np_float (m e : Z).           (* the float [m * 2 ^ e] *)

(** The argument carried by a [KeyError]. *)
Inductive key_error_arg : Type :=
  | KeyItem (v : np_scalar)         (* one entry of an array of identifiers *)
  | KeyArray (vs : list np_scalar)  (* an array of identifiers *)
  | KeyInt (k : Z)                  (* an integer dictionary key *)
  | KeyStr (k : string).            (* a type name used as dictionary key *)

Inductive exception : Type :=
  | ValueError (msg : string)
  | KeyError (arg : key_error_arg)
  | IndexError
  | InvalidArgumentError
  | OverflowError.

Inductive result (A : Type) : Type :=
  | Ok (a : A)
  | Raise (e : exception).
Global Arguments Ok {A} a.
Global Arguments Raise {A} e.

Definition bind {A B : Type} (m : result A) (k : A → result B) : result B :=
  match m with
  | Ok a => k a
  | Raise e => Raise e
  end.

Notation "x <- m ;; k" := (bind m (λ x, k))
  (at level 61, m at next level, right associativity, k at level 200).
Notation "m ;;; k" := (bind m (λ _, k))
  (at level 61, right associativity, k at level 200).

Fixpoint foldM {A B : Type} (f : B → A → result B) (l : list A) (b : B)
    : result B :=
  match l with
  | [] => Ok b
  | x :: rest => b' <- f b x ;; foldM f rest b'
  end.

(** [d[k]] on a plain [dict]: a missing key raises [KeyError]. *)
Definition dict_getitem {K : Type} `{Countable K} {V : Type}
    (mk : K → key_error_arg) (d : gmap K V) (k : K) : result V :=
  match d !! k with
  | Some v => Ok v
  | None => Raise (KeyError (mk k))
  end.

(** ** numpy *)

Inductive dtype : Type := uint8 | uint16 | uint32 | uint64 | object_.

Global Instance dtype_eq_dec : EqDecision dtype.
Proof. solve_decision. Defined.

(** Width in bits of the unsigned integer dtypes. *)
Definition itemsize_bits (d : dtype) : option Z :=
  match d with
  | uint8 => Some 8
  | uint16 => Some 16
  | uint32 => Some 32
  | uint64 => Some 64
  | object_ => None
  end.

(** [np.iinfo(d).max] *)
Definition iinfo_max (d : dtype) : option Z :=
  w ← itemsize_bits d; Some (2 ^ w - 1).

(** [np.min_scalar_type(n)] for a non-negative Python integer [n]: the
    smallest unsigned dtype whose range contains [n], and [object] beyond
    64 bits. *)
Definition min_scalar_type (n : nat) : dtype :=
  let z := Z.of_nat n in
  if z <=? 255 then uint8
  else if z <=? 65535 then uint16
  else if z <=? 4294967295 then uint32
  else if z <=? 18446744073709551615 then uint64
  else object_.

(** [a.astype(d)] on one element of an integer array: conversion to an
    unsigned dtype wraps modulo [2^w]. *)
Definition astype1 (d : dtype) (z : Z) : Z :=
  match itemsize_bits d with
  | Some w => z `mod` 2 ^ w
  | None => z
  end.

Definition astype (d : dtype) (a : list Z) : list Z := astype1 d <$> a.

(** [a[i]] for one integer position of a fancy index: negative positions
    count from the end, positions outside [-len, len) raise [IndexError]. *)
Definition getitem1 {A : Type} (a : list A) (i : Z) : result A :=
  let n := Z.of_nat (length a) in
  let j := if i <? 0 then i + n else i in
  if (0 <=? j) && (j <? n) then
    match a !! Z.to_nat j with
    | Some x => Ok x
    | None => Raise IndexError
    end
  else Raise IndexError.

(** [a[ilocs]] with an integer array [ilocs]. *)
Fixpoint getitem {A : Type} (a : list A) (ilocs : list Z) : result (list A) :=
  match ilocs with
  | [] => Ok []
  | i :: rest =>
      x <- getitem1 a i ;;
      xs <- getitem a rest ;;
      Ok (x :: xs)
  end.

(** [a[mask]] with a boolean array [mask] of the same length. *)
Fixpoint getitem_mask {A : Type} (a : list A) (mask : list bool) : list A :=
  match a, mask with
  | x :: a', b :: mask' =>
      if b then x :: getitem_mask a' mask' else getitem_mask a' mask'
  | _, _ => []
  end.

(** [np.repeat(a, counts)] *)
Fixpoint repeat_counts {A : Type} (a : list A) (counts : list nat) : list A :=
  match a, counts with
  | x :: a', c :: counts' => replicate c x ++ repeat_counts a' counts'
  | _, _ => []
  end.

(** *** Arrays of ilocs with their dtype *)

(** The dtype of an array of ilocs: [np.intp] (64-bit signed), which
    [get_indexer] returns, or the dtype [d] of an array made by
    [astype(d)]. *)
Inductive iloc_dtype : Type :=
  | intp
  | compact (d : dtype).

Record ndarray : Type := mkArray {
  nd_dtype : iloc_dtype;
  nd_values : list Z;
}.

(** Two's complement wrap-around into the range of a 64-bit signed
    integer. *)
Definition wrap_int64 (z : Z) : Z := (z + 2 ^ 63) `mod` 2 ^ 64 - 2 ^ 63.

(** The value that an integer result takes in an array of dtype [dt]:
    signed and unsigned integers wrap around, Python objects do not. *)
Definition cast (dt : iloc_dtype) (z : Z) : Z :=
  match dt with
  | intp => wrap_int64 z
  | compact d => astype1 d z
  end.

(** Every entry of the array is a value of its dtype. *)
Definition array_wf (a : ndarray) : Prop :=
  Forall (λ v, cast (nd_dtype a) v = v) (nd_values a).

(** The order of the dtypes by what they hold. *)
Definition dtype_rank (d : dtype) : Z :=
  match d with
  | uint8 => 0
  | uint16 => 1
  | uint32 => 2
  | uint64 => 3
  | object_ => 4
  end.

(** [np.promote_types(d1, d2)] on unsigned integer dtypes and [object]. *)
Definition promote_types (d1 d2 : dtype) : dtype :=
  if dtype_rank d1 <? dtype_rank d2 then d2 else d1.

(** The dtype of [a - s] for an array [a] of dtype [dt] and a Python
    integer [s] with [0 <= s < 2^63], by the value-based casting of
    numpy 1: the scalar counts with the smallest dtype that holds its
    value, so a signed 64-bit array stays one, and an unsigned array is
    widened only when [s] does not fit its dtype. *)
Definition sub_result_type (dt : iloc_dtype) (s : Z) : iloc_dtype :=
  match dt with
  | intp => intp
  | compact d => compact (promote_types d (min_scalar_type (Z.to_nat s)))
  end.

(** [a - s]: the subtraction is done in the result dtype, where it wraps
    around. *)
Definition sub_scalar (a : ndarray) (s : Z) : ndarray :=
  let dt := sub_result_type (nd_dtype a) s in
  mkArray dt ((λ v, cast dt (v - s)) <$> nd_values a).

(** [a.astype(int)], the conversion to 64-bit signed integers: fixed-width
    integers wrap around, a Python integer that does not fit raises
    [OverflowError]. *)
Definition astype_int (a : ndarray) : result (list Z) :=
  match nd_dtype a with
  | compact object_ =>
      if forallb (λ v, (- 2 ^ 63 <=? v) && (v <? 2 ^ 63)) (nd_values a)
      then Ok (nd_values a)
      else Raise OverflowError
  | _ => Ok (wrap_int64 <$> nd_values a)
  end.

(** ** pandas.Index *)

(** [index.is_unique] *)
Definition is_unique (index : list ident) : bool := bool_decide (NoDup index).

(** [index.duplicated()] with the default [keep='first']: every occurrence
    after the first one is flagged. *)
Fixpoint duplicated_from (seen : list ident) (index : list ident) : list bool :=
  match index with
  | [] => []
  | x :: rest => bool_decide (x ∈ seen) :: duplicated_from (x :: seen) rest
  end.

Definition duplicated (index : list ident) : list bool := duplicated_from [] index.

(** [index.unique()]: the distinct values in order of first appearance. *)
Fixpoint unique_from (seen : list ident) (index : list ident) : list ident :=
  match index with
  | [] => []
  | x :: rest =>
      if decide (x ∈ seen) then unique_from seen rest
      else x :: unique_from (x :: seen) rest
  end.

Definition unique (index : list ident) : list ident := unique_from [] index.

(** Position of [id] in a unique index, as [get_indexer] reports it for one
    label: [-1] when the label is absent. *)
Fixpoint get_loc (index : list ident) (id : ident) : Z :=
  match index with
  | [] => -1
  | x :: rest =>
      if decide (x = id) then 0
      else let r := get_loc rest id in if r <? 0 then -1 else 1 + r
  end.

(** [index.get_indexer(ids)] *)
Definition get_indexer (index : list ident) (ids : list ident) : list Z :=
  get_loc index <$> ids.

(** ** ExternalIdIndex *)

Section element_data.

(** [comma_sep] of [stellargraph.core.validation] renders a collection of
    values inside error messages. *)
Variable comma_sep : list ident → string.

(** [np.asarray] on a Python list of identifiers: the entries of the
    array, one for each element of the list. *)
Variable asarray : list ident → list np_scalar.

Record ExternalIdIndex : Type := mkExternalIdIndex {
  _index : list ident;
  _dtype : dtype;
}.

Definition ExternalIdIndex_init (ids : list ident) : result ExternalIdIndex :=
  let index := ids in
  let dt := min_scalar_type (length index) in
  if negb (is_unique index) then
    let dups := unique (getitem_mask index (duplicated index)) in
    Raise (ValueError
      ("expected IDs to appear once, found some that appeared more: "
         +:+ comma_sep dups))
  else Ok (mkExternalIdIndex index dt).

(** [len(self)] *)
Definition len (self : ExternalIdIndex) : Z := Z.of_nat (length (_index self)).

Definition contains_external (self : ExternalIdIndex) (id : ident) : bool :=
  bool_decide (id ∈ _index self).

Definition is_valid (self : ExternalIdIndex) (ilocs : list Z) : list bool :=
  (λ iloc, (0 <=? iloc) && (iloc <? len self)) <$> ilocs.

Definition require_valid (self : ExternalIdIndex)
    (query_ids : list ident) (ilocs : list Z) : result unit :=
  let valid := is_valid self ilocs in
  if negb (forallb (λ b, b) valid) then
    let missing_values := getitem_mask (asarray query_ids) (negb <$> valid) in
    match missing_values with
    | [m] => Raise (KeyError (KeyItem m))
    | _ => Raise (KeyError (KeyArray missing_values))
    end
  else Ok ().

Definition to_iloc (self : ExternalIdIndex) (ids : list ident)
    (smaller_type strict : bool) : result (list Z) :=
  let internal_ids := get_indexer (_index self) ids in
  (if strict then require_valid self ids internal_ids else Ok ()) ;;;
  if smaller_type then Ok (astype (_dtype self) internal_ids)
  else Ok internal_ids.

(** The array that [to_iloc] returns, with its dtype: the dtype of the
    index after [astype], [np.intp] otherwise. *)
Definition to_iloc_array (self : ExternalIdIndex) (ids : list ident)
    (smaller_type strict : bool) : result ndarray :=
  values <- to_iloc self ids smaller_type strict ;;
  Ok (mkArray (if smaller_type then compact (_dtype self) else intp) values).

Definition from_iloc (self : ExternalIdIndex) (internal_ids : list Z)
    : result (list ident) :=
  getitem (_index self) internal_ids.

End element_data.

(** ** ElementData *)

(** A Python [range(start, stop)]. *)
Record range : Type := mkRange { start : Z; stop : Z }.

(** [len(r)] *)
Definition range_len (r : range) : Z := Z.max 0 (stop r - start r).

(** [i in r] *)
Definition range_contains (r : range) (i : Z) : Prop := start r ≤ i < stop r.

(** [sorted(d.keys())] for a dictionary keyed by type names. *)
Definition sorted_keys {V : Type} (d : gmap string V) : list string :=
  merge_sort String.le (map_to_list d).*1.

(** A [pandas.DataFrame] with columns [R]: its rows in order, each with its
    label (the entry of [df.index]) and its columns. The columns a subclass
    requires are fields of [R], so [require_dataframe_has_columns] and the
    [isinstance] checks of [__init__] hold by typing. *)
Abbreviation DataFrame R := (list (ident * R)) (only parsing).

Section typed_store.

Variable comma_sep : list ident → string.

Variable asarray : list ident → list np_scalar.

(** The columns of one row of a data frame. *)
Context {R : Type}.

Record ElementData : Type := mkElementData {
  _id_index : ExternalIdIndex;
  _columns : list R;
  _type_index : ExternalIdIndex;
  _type_column : list Z;
  _type_element_ilocs : gmap string range;
}.

(** The local variables that the loop over [all_types] updates. *)
Record init_locals : Type := mkInitLocals {
  type_element_ilocs : gmap string range;
  rows_so_far : Z;
  type_sizes : list nat;
  type_dfs : list (DataFrame R);
}.

Definition init_loop_body (shared : gmap string (DataFrame R))
    (st : init_locals) (type_name : string) : result init_locals :=
  type_data <- dict_getitem KeyStr shared type_name ;;
  let size := length type_data in
  Ok {| type_element_ilocs :=
          <[type_name := mkRange (rows_so_far st) (rows_so_far st + Z.of_nat size)]>
            (type_element_ilocs st);
        rows_so_far := rows_so_far st + Z.of_nat size;
        type_sizes := type_sizes st ++ [size];
        type_dfs := type_dfs st ++ [type_data] |}.

Definition ElementData_init (shared : gmap string (DataFrame R)) : result ElementData :=
  let all_types := sorted_keys shared in
  st <- foldM (init_loop_body shared) all_types (mkInitLocals ∅ 0 [] []) ;;
  let all_columns : DataFrame R :=
    match type_dfs st with
    | _ :: _ => concat (type_dfs st)
    | [] => []
    end in
  id_index <- ExternalIdIndex_init comma_sep all_columns.*1 ;;
  let columns := all_columns.*2 in
  type_index <- ExternalIdIndex_init comma_sep (IdStr <$> all_types) ;;
  codes <- to_iloc asarray type_index (IdStr <$> all_types) true false ;;
  Ok {| _id_index := id_index;
        _columns := columns;
        _type_index := type_index;
        _type_column := repeat_counts codes (type_sizes st);
        _type_element_ilocs := type_element_ilocs st |}.

(** [len(self)] *)
Definition ElementData_len (self : ElementData) : Z := len (_id_index self).

(** [item in self] *)
Definition ElementData_contains (self : ElementData) (item : ident) : bool :=
  contains_external (_id_index self) item.

Definition ids (self : ElementData) : ExternalIdIndex := _id_index self.

Definition types (self : ElementData) : ExternalIdIndex := _type_index self.

Definition type_range (self : ElementData) (type_name : string) : result range :=
  dict_getitem KeyStr (_type_element_ilocs self) type_name.

Definition type_ilocs (self : ElementData) : list Z := _type_column self.

Definition type_of_iloc (self : ElementData) (id_ilocs : list Z)
    : result (list ident) :=
  type_codes <- getitem (_type_column self) id_ilocs ;;
  from_iloc (_type_index self) type_codes.

End typed_store.

(** ** NodeData *)

(** [repr] of a Python [str] without quotes or escapes in it. *)
Definition repr_str (s : string) : string := "'" +:+ s +:+ "'".

(** A two-dimensional [tf.Tensor] with elements [F]: the list of its rows. *)
Abbreviation Tensor F := (list (list F)) (only parsing).

Section node_store.

Variable comma_sep : list ident → string.

Variable asarray : list ident → list np_scalar.

Context {R F : Type}.


Record NodeData : Type := mkNodeData {
  node_element_data : ElementData (R := R);
  _features : gmap string (Tensor F);
}.

(** One iteration of the loop over [features.items()]. The loop below
    visits the items in the order of the keys, the source in the order in
    which the dictionary was filled: when several items are wrong, the
    order decides which error is raised, and nothing else. *)
Definition check_features (base : ElementData (R := R))
    (_ : unit) (item : string * (Tensor F)) : result unit :=
  let '(key, data) := item in
  let rows := Z.of_nat (length data) in
  r <- dict_getitem KeyStr (_type_element_ilocs base) key ;;
  let expected := range_len r in
  if decide (rows ≠ expected) then
    Raise (ValueError
      ("features[" +:+ repr_str key +:+ "]: expected one feature per ID, found "
         +:+ pretty expected +:+ " IDs and " +:+ pretty rows +:+ " feature rows"))
  else Ok ().

Definition NodeData_init (shared : gmap string (DataFrame R))
    (features : gmap string (Tensor F)) : result NodeData :=
  base <- ElementData_init comma_sep asarray shared ;;
  foldM (check_features base) (map_to_list features) () ;;;
  Ok {| node_element_data := base; _features := features |}.

(** [tf.nn.embedding_lookup(params, ids)] on the CPU device: an index
    outside [0, rows) raises [InvalidArgumentError]. *)
Fixpoint embedding_lookup (params : Tensor F) (ids : list Z) : result (Tensor F) :=
  match ids with
  | [] => Ok []
  | i :: rest =>
      if (0 <=? i) && (i <? Z.of_nat (length params)) then
        match params !! Z.to_nat i with
        | Some row => rows <- embedding_lookup params rest ;; Ok (row :: rows)
        | None => Raise InvalidArgumentError
        end
      else Raise InvalidArgumentError
  end.

Definition features (self : NodeData) (type_name : string) (id_ilocs : ndarray)
    : result (Tensor F) :=
  r <- dict_getitem KeyStr (_type_element_ilocs (node_element_data self)) type_name ;;
  let start := start r in
  let feature_ilocs := sub_scalar id_ilocs start in
  if existsb (λ i, i <? 0) (nd_values feature_ilocs)
  then Raise (ValueError "unknown IDs")
  else
    match
      params <- dict_getitem KeyStr (_features self) type_name ;;
      indices <- astype_int feature_ilocs ;;
      embedding_lookup params indices
    with
    | Raise InvalidArgumentError => Raise (ValueError "unknown IDs")
    | other => other
    end.

End node_store.

(** ** EdgeData *)

Section edge_store.

Variable comma_sep : list ident → string.

Variable asarray : list ident → list np_scalar.

(** The type of edge weights (a numpy floating point or integer dtype). *)
Context {W : Type}.

(** The required columns [SOURCE], [TARGET] and [WEIGHT] of an edge row;
    sources and targets are node ilocs. *)
Record edge_row : Type := mkEdge {
  SOURCE : Z;
  TARGET : Z;
  WEIGHT : W;
}.

(** The six dictionaries the loop over the edges of one type fills. *)
Record adjacency : Type := mkAdjacency {
  in_dict : gmap Z (list Z);
  out_dict : gmap Z (list Z);
  undirected : gmap Z (list Z);
  in_weights : gmap Z (list W);
  out_weights : gmap Z (list W);
  und_weights : gmap Z (list W);
}.

(** [dict((i, []) for i in range(num_nodes))] *)
Definition empty_lists {A : Type} (num_nodes : Z) : gmap Z (list A) :=
  list_to_map ((λ i, (i, [])) <$> seqZ 0 num_nodes).

(** [d[k].append(x)] *)
Definition dict_append {A : Type} (d : gmap Z (list A)) (k : Z) (x : A)
    : result (gmap Z (list A)) :=
  l <- dict_getitem KeyInt d k ;;
  Ok (<[k := l ++ [x]]> d).

(** The body of the loop over [zip(type_data[SOURCE], type_data[TARGET],
    type_data[WEIGHT])]. *)
Definition edge_loop_body (a : adjacency) (row : ident * edge_row) : result adjacency :=
  let src := SOURCE row.2 in
  let tgt := TARGET row.2 in
  let wt := WEIGHT row.2 in
  in_dict' <- dict_append (in_dict a) tgt src ;;
  in_weights' <- dict_append (in_weights a) tgt wt ;;
  out_dict' <- dict_append (out_dict a) src tgt ;;
  out_weights' <- dict_append (out_weights a) src wt ;;
  undirected' <- dict_append (undirected a) tgt src ;;
  und_weights' <- dict_append (und_weights a) tgt wt ;;
  if decide (src ≠ tgt) then
    undirected'' <- dict_append undirected' src tgt ;;
    und_weights'' <- dict_append und_weights' src wt ;;
    Ok (mkAdjacency in_dict' out_dict' undirected'' in_weights' out_weights' und_weights'')
  else
    Ok (mkAdjacency in_dict' out_dict' undirected' in_weights' out_weights' und_weights').

Definition build_adjacency (num_nodes : Z) (type_data : DataFrame edge_row)
    : result adjacency :=
  foldM edge_loop_body type_data
    (mkAdjacency (empty_lists num_nodes) (empty_lists num_nodes) (empty_lists num_nodes)
                 (empty_lists num_nodes) (empty_lists num_nodes) (empty_lists num_nodes)).

(** [_numpyise(d, dtype)]: every list becomes an array of the dtype of the
    column its values were read from, which keeps keys and values. *)
Definition _numpyise {A : Type} (d : gmap Z (list A)) : gmap Z (list A) :=
  (λ v, v) <$> d.

Record EdgeData : Type := mkEdgeData {
  edge_element_data : ElementData (R := edge_row);
  sources : list Z;
  targets : list Z;
  weights : list W;
  all_type_names : list string;
  _edges_in_by_type : gmap string (gmap Z (list Z));
  _edges_out_by_type : gmap string (gmap Z (list Z));
  _edges_by_type : gmap string (gmap Z (list Z));
  _weights_in_by_type : gmap string (gmap Z (list W));
  _weights_out_by_type : gmap string (gmap Z (list W));
  _weights_by_type : gmap string (gmap Z (list W));
}.

(** The body of the loop over [all_type_names]; the state is the store
    with the dictionaries filled so far. *)
Definition type_loop_body (shared : gmap string (DataFrame edge_row))
    (num_nodes : Z) (self : EdgeData) (type_name : string) : result EdgeData :=
  type_data <- dict_getitem KeyStr shared type_name ;;
  a <- build_adjacency num_nodes type_data ;;
  Ok {| edge_element_data := edge_element_data self;
        sources := sources self;
        targets := targets self;
        weights := weights self;
        all_type_names := all_type_names self;
        _edges_in_by_type := <[type_name := _numpyise (in_dict a)]> (_edges_in_by_type self);
        _edges_out_by_type := <[type_name := _numpyise (out_dict a)]> (_edges_out_by_type self);
        _edges_by_type := <[type_name := _numpyise (undirected a)]> (_edges_by_type self);
        _weights_in_by_type := <[type_name := _numpyise (in_weights a)]> (_weights_in_by_type self);
        _weights_out_by_type := <[type_name := _numpyise (out_weights a)]> (_weights_out_by_type self);
        _weights_by_type := <[type_name := _numpyise (und_weights a)]> (_weights_by_type self) |}.

Definition EdgeData_init (shared : gmap string (DataFrame edge_row))
    (num_nodes : Z) : result EdgeData :=
  base <- ElementData_init comma_sep asarray shared ;;
  let self :=
    {| edge_element_data := base;
       sources := SOURCE <$> _columns base;
       targets := TARGET <$> _columns base;
       weights := WEIGHT <$> _columns base;
       all_type_names := sorted_keys shared;
       _edges_in_by_type := ∅;
       _edges_out_by_type := ∅;
       _edges_by_type := ∅;
       _weights_in_by_type := ∅;
       _weights_out_by_type := ∅;
       _weights_by_type := ∅ |} in
  foldM (type_loop_body shared num_nodes) (all_type_names self) self.

Definition usage_error : exception :=
  ValueError "expected at least one of 'ins' or 'outs' to be True, found neither".

Definition _adj_lookup (self : EdgeData) (type_name : string) (ins outs : bool)
    : result (gmap Z (list Z)) :=
  if ins && outs then dict_getitem KeyStr (_edges_by_type self) type_name
  else if ins then dict_getitem KeyStr (_edges_in_by_type self) type_name
  else if outs then dict_getitem KeyStr (_edges_out_by_type self) type_name
  else Raise usage_error.

Definition _weight_lookup (self : EdgeData) (type_name : string) (ins outs : bool)
    : result (gmap Z (list W)) :=
  if ins && outs then dict_getitem KeyStr (_weights_by_type self) type_name
  else if ins then dict_getitem KeyStr (_weights_in_by_type self) type_name
  else if outs then dict_getitem KeyStr (_weights_out_by_type self) type_name
  else Raise usage_error.

(** A [defaultdict(int, items)]: reading an absent key gives [int()]. *)
Record defaultdict_int : Type := mkDefaultdict { dd_items : gmap Z nat }.

Definition dd_getitem (d : defaultdict_int) (k : Z) : nat :=
  default 0%nat (dd_items d !! k).

Definition degrees (self : EdgeData) (type_name : string) (ins outs : bool)
    : result defaultdict_int :=
  adj <- _adj_lookup self type_name ins outs ;;
  Ok (mkDefaultdict (length <$> adj)).

Definition neighbour_ilocs (self : EdgeData) (node_id : Z) (type_name : string)
    (ins outs : bool) : result (list Z) :=
  adj <- _adj_lookup self type_name ins outs ;;
  dict_getitem KeyInt adj node_id.

Definition neighbour_weights (self : EdgeData) (node_id : Z) (type_name : string)
    (ins outs : bool) : result (list W) :=
  wts <- _weight_lookup self type_name ins outs ;;
  dict_getitem KeyInt wts node_id.

End edge_store.

Global Arguments edge_row : clear implicits.
Global Arguments adjacency : clear implicits.
Global Arguments EdgeData : clear implicits.

(** ** Inputs used in the examples *)

(** [sys.maxsize] of a 64-bit CPython: no sequence is longer. *)
Definition sys_maxsize : Z := 2 ^ 63 - 1.

(** A rendering of identifiers for error messages. *)
Definition example_comma_sep (l : list ident) : string :=
  String.concat ", "
    ((λ i, match i with IdInt z => pretty z | IdStr s => repr_str s end) <$> l).

(** [np.asarray] on lists of 64-bit integers, on lists of strings, and on
    lists that mix them, where the integers become strings. *)
Definition example_asarray (l : list ident) : list np_scalar :=
  if forallb (λ i, match i with IdInt _ => true | IdStr _ => false end) l
  then (λ i, match i with IdInt z => np_int z | IdStr s => np_str s end) <$> l
  else (λ i, match i with IdInt z => np_str (pretty z) | IdStr s => np_str s end) <$> l.

Definition abc : list ident := [IdStr "a"; IdStr "b"; IdStr "c"].

(** An index over 256 identifiers: its last iloc is 255. *)
Definition ids_256 : list ident := IdInt <$> seqZ 0 256.

(** Two node types: ["A"] with 3 rows and ["B"] with 5 rows. *)
Definition example_nodes : gmap string (DataFrame unit) :=
  {[ "B" := [(IdStr "b0", ()); (IdStr "b1", ()); (IdStr "b2", ());
             (IdStr "b3", ()); (IdStr "b4", ())];
     "A" := [(IdStr "a0", ()); (IdStr "a1", ()); (IdStr "a2", ())] ]}.

(** One feature per node. *)
Definition example_features : gmap string (Tensor Z) :=
  {[ "A" := [[10]; [11]; [12]];
     "B" := [[20]; [21]; [22]; [23]; [24]] ]}.




(** One edge type over 3 nodes with the edges (0,1), (1,2) and the
    self-loop (2,2), of weights 1, 2 and 3. *)
Definition example_edges : gmap string (DataFrame (edge_row Z)) :=
  {[ "e" := [(IdInt 0, mkEdge 0 1 1); (IdInt 1, mkEdge 1 2 2);
             (IdInt 2, mkEdge 2 2 3)] ]}.

(** ** Notions used to state the properties *)

(** The entries of [values] at the positions where [ids] has an identifier
    that [index] does not contain. *)
Definition entries_of_unknown {A : Type} (index ids : list ident)
    (values : list A) : list A :=
  (filter (λ p, p.1 ∉ index) (zip ids values)).*2.

(** The entries of [values] at the positions where [ilocs] has a value
    outside [0, n). *)
Definition entries_out_of_range {A : Type} (n : Z) (values : list A)
    (ilocs : list Z) : list A :=
  (filter (λ p, ¬ (0 ≤ p.2 < n)) (zip values ilocs)).*1.

(** The argument of the [KeyError] of [require_valid]: the entry itself
    when one is missing, the array of them otherwise. *)
Definition missing_key (missing_values : list np_scalar) : key_error_arg :=
  match missing_values with
  | [m] => KeyItem m
  | _ => KeyArray missing_values
  end.

(** Arrays of dtype [dt] hold every iloc of a store of [n] elements, and
    [n] itself: 64-bit signed integers, or unsigned integers of a width
    [w] with [n < 2 ^ w]. These are the dtypes of the arrays that [to_iloc]
    of the store returns, and the wider ones. *)
Definition holds_ilocs (dt : iloc_dtype) (n : Z) : Prop :=
  match dt with
  | intp => n ≤ 2 ^ 63 - 1
  | compact d =>
      match itemsize_bits d with
      | Some w => n < 2 ^ w
      | None => False
      end
  end.

(** [x] appears at two different positions of [l]. *)
Definition occurs_twice (x : ident) (l : list ident) : Prop :=
  ∃ l1 l2 l3, l = l1 ++ x :: l2 ++ x :: l3.

(** The message of the error that [ExternalIdIndex] raises on duplicates. *)
Definition duplicate_message (rendered : string) : string :=
  "expected IDs to appear once, found some that appeared more: " +:+ rendered.

(** The iloc at which the [k]-th of the concatenated tables starts. *)
Definition offset {A : Type} (tables : list (list A)) (k : nat) : Z :=
  Z.of_nat (length (concat (take k tables))).

(** The tables of the type names [ts], in that order. *)
Definition tables_of {R : Type} (shared : gmap string (DataFrame R))
    (ts : list string) : list (DataFrame R) :=
  (λ t, default [] (shared !! t)) <$> ts.

(** The ranges that the loop of [ElementData.__init__] records for the type
    names [ts] with tables [tables], starting from row [rows]. *)
Fixpoint assign_ranges {A : Type} (ts : list string) (tables : list (list A))
    (rows : Z) (m : gmap string range) : gmap string range :=
  match ts, tables with
  | t :: ts', df :: tables' =>
      assign_ranges ts' tables' (rows + Z.of_nat (length df))
        (<[t := mkRange rows (rows + Z.of_nat (length df))]> m)
  | _, _ => m
  end.

(** The edges of a type that enter [v], leave [v], or touch [v], in the
    order of the table. *)
Definition edges_into {W : Type} (v : Z) (es : list (edge_row W)) : list (edge_row W) :=
  filter (λ e, TARGET e = v) es.

Definition edges_out_of {W : Type} (v : Z) (es : list (edge_row W)) : list (edge_row W) :=
  filter (λ e, SOURCE e = v) es.

Definition edges_at {W : Type} (v : Z) (es : list (edge_row W)) : list (edge_row W) :=
  filter (λ e, TARGET e = v ∨ SOURCE e = v) es.

(** The end of [e] that is not [v] (and [v] itself for a self-loop). *)
Definition other_end {W : Type} (v : Z) (e : edge_row W) : Z :=
  if decide (TARGET e = v) then SOURCE e else TARGET e.

(** The dictionary [d] has exactly the keys [0 .. n - 1] and [d[v]] is
    the list [f v]. *)
Definition tabulates {A : Type} (n : Z) (d : gmap Z (list A)) (f : Z → list A) : Prop :=
  ∀ v, d !! v = if decide (0 ≤ v < n) then Some (f v) else None.

(** The dictionaries [a] are the adjacency of the edges [es] over the nodes
    [0 .. n - 1]: every node has its neighbours and the weights of the same
    edges, in the order of [es]; in the undirected view every edge at a
    node counts once, a self-loop too. *)
Definition adjacency_of {W : Type} (n : Z) (es : list (edge_row W))
    (a : adjacency W) : Prop :=
  tabulates n (in_dict a) (λ v, SOURCE <$> edges_into v es) ∧
  tabulates n (in_weights a) (λ v, WEIGHT <$> edges_into v es) ∧
  tabulates n (out_dict a) (λ v, TARGET <$> edges_out_of v es) ∧
  tabulates n (out_weights a) (λ v, WEIGHT <$> edges_out_of v es) ∧
  tabulates n (undirected a) (λ v, other_end v <$> edges_at v es) ∧
  tabulates n (und_weights a) (λ v, WEIGHT <$> edges_at v es).

(** The six dictionaries that a store holds for a type name. *)
Definition type_tables {W : Type} (self : EdgeData W) (t : string)
    : option (gmap Z (list Z)) * option (gmap Z (list Z)) * option (gmap Z (list Z))
      * option (gmap Z (list W)) * option (gmap Z (list W)) * option (gmap Z (list W)) :=
  (_edges_in_by_type self !! t, _edges_out_by_type self !! t, _edges_by_type self !! t,
   _weights_in_by_type self !! t, _weights_out_by_type self !! t,
   _weights_by_type self !! t).

(** With the flags [ins] and [outs], the three queries on type [t] read the
    adjacency dictionaries [edges] and the weight dictionaries [wts], and
    nothing else: the degree of a node is the length of its entry ([0] when
    it has none), its neighbours and weights are its entries, and an
    unknown type name raises [KeyError]. *)
Definition served_from {W : Type} (self : EdgeData W) (t : string) (ins outs : bool)
    (edges : gmap string (gmap Z (list Z))) (wts : gmap string (gmap Z (list W)))
    : Prop :=
  (∀ adj, edges !! t = Some adj →
     (∃ d, degrees self t ins outs = Ok d ∧
           ∀ v, dd_getitem d v = length (default [] (adj !! v))) ∧
     (∀ v, neighbour_ilocs self v t ins outs = dict_getitem KeyInt adj v)) ∧
  (∀ w, wts !! t = Some w →
     ∀ v, neighbour_weights self v t ins outs = dict_getitem KeyInt w v) ∧
  (edges !! t = None →
     degrees self t ins outs = Raise (KeyError (KeyStr t)) ∧
     ∀ v, neighbour_ilocs self v t ins outs = Raise (KeyError (KeyStr t))) ∧
  (wts !! t = None →
     ∀ v, neighbour_weights self v t ins outs = Raise (KeyError (KeyStr t))).

(** The self-loops at [v]. *)
Definition loops_at {W : Type} (v : Z) (es : list (edge_row W)) : list (edge_row W) :=
  filter (λ e, SOURCE e = v ∧ TARGET e = v) es.

(** The edges at [v] that a query with the flags [ins] and [outs] is about,
    and the end of such an edge that the query reports. *)
Definition selected_edges {W : Type} (ins outs : bool) (v : Z)
    (es : list (edge_row W)) : list (edge_row W) :=
  if ins && outs then edges_at v es
  else if ins then edges_into v es
  else edges_out_of v es.

Definition selected_end {W : Type} (ins outs : bool) (v : Z) (e : edge_row W) : Z :=
  if ins && outs then other_end v e
  else if ins then SOURCE e
  else TARGET e.

(* ================================================================= *)
(** * Properties *)

(** ** numpy and pandas helpers *)

Lemma bind_Ok {A B : Type} (m : result A) (k : A → result B) (b : B) :
  (x <- m ;; k x) = Ok b ↔ ∃ a, m = Ok a ∧ k a = Ok b.
Proof. destruct m; simpl; naive_solver. Qed.

Lemma dict_getitem_Some {K : Type} `{Countable K} {V : Type}
    (mk : K → key_error_arg) (d : gmap K V) (k : K) (v : V) :
  d !! k = Some v → dict_getitem mk d k = Ok v.
Proof. unfold dict_getitem. by intros ->. Qed.

Lemma dict_getitem_None {K : Type} `{Countable K} {V : Type}
    (mk : K → key_error_arg) (d : gmap K V) (k : K) :
  d !! k = None → dict_getitem mk d k = Raise (KeyError (mk k)).
Proof. unfold dict_getitem. by intros ->. Qed.

Lemma dict_getitem_Ok {K : Type} `{Countable K} {V : Type}
    (mk : K → key_error_arg) (d : gmap K V) (k : K) (v : V) :
  dict_getitem mk d k = Ok v ↔ d !! k = Some v.
Proof. unfold dict_getitem. destruct (d !! k); naive_solver. Qed.

Lemma min_scalar_type_fits (n : nat) (w : Z) :
  itemsize_bits (min_scalar_type n) = Some w → Z.of_nat n ≤ 2 ^ w - 1.
Proof.
  unfold min_scalar_type. cbv zeta.
  repeat case_match; simpl; intros [= <-]; lia.
Qed.

Lemma min_scalar_type_unsigned (n : nat) :
  Z.of_nat n ≤ sys_maxsize → is_Some (itemsize_bits (min_scalar_type n)).
Proof.
  unfold min_scalar_type, sys_maxsize. cbv zeta. intros Hn.
  destruct (Z.leb_spec (Z.of_nat n) 255); [simpl; eauto|].
  destruct (Z.leb_spec (Z.of_nat n) 65535); [simpl; eauto|].
  destruct (Z.leb_spec (Z.of_nat n) 4294967295); [simpl; eauto|].
  destruct (Z.leb_spec (Z.of_nat n) 18446744073709551615); [simpl; eauto|lia].
Qed.

Lemma min_scalar_type_minimal (n : nat) (w : Z) (d' : dtype) (w' : Z) :
  itemsize_bits (min_scalar_type n) = Some w →
  itemsize_bits d' = Some w' →
  Z.of_nat n ≤ 2 ^ w' - 1 →
  w ≤ w'.
Proof.
  unfold min_scalar_type. cbv zeta.
  repeat case_match; simpl; intros [= <-]; destruct d'; simpl; intros [= <-]; lia.
Qed.

Lemma astype1_small (d : dtype) (w z : Z) :
  itemsize_bits d = Some w → 0 ≤ z ≤ 2 ^ w - 1 → astype1 d z = z.
Proof. unfold astype1. intros -> Hz. apply Z.mod_small. lia. Qed.

Lemma astype1_minus_one (d : dtype) (w : Z) :
  itemsize_bits d = Some w → astype1 d (-1) = 2 ^ w - 1.
Proof.
  unfold astype1. intros Hw. rewrite Hw.
  assert (0 < 2 ^ w) by (destruct d; simplify_eq/=; lia).
  symmetry. apply (Z.mod_unique_pos _ _ (-1)); lia.
Qed.

Lemma wrap_int64_small (z : Z) : - 2 ^ 63 ≤ z < 2 ^ 63 → wrap_int64 z = z.
Proof. unfold wrap_int64. intros Hz. rewrite Z.mod_small; lia. Qed.

Lemma wrap_int64_range (z : Z) : - 2 ^ 63 ≤ wrap_int64 z < 2 ^ 63.
Proof.
  unfold wrap_int64. pose proof (Z.mod_pos_bound (z + 2 ^ 63) (2 ^ 64)). lia.
Qed.

Lemma wrap_int64_above (z : Z) : 2 ^ 63 ≤ z < 2 ^ 64 → wrap_int64 z = z - 2 ^ 64.
Proof.
  unfold wrap_int64. intros Hz.
  rewrite <- (Z.mod_unique_pos (z + 2 ^ 63) (2 ^ 64) 1 (z - 2 ^ 63)); lia.
Qed.

Lemma wrap_int64_below (z : Z) : - 2 ^ 64 ≤ z < - 2 ^ 63 → wrap_int64 z = z + 2 ^ 64.
Proof.
  unfold wrap_int64. intros Hz.
  rewrite <- (Z.mod_unique_pos (z + 2 ^ 63) (2 ^ 64) (-1) (z + 2 ^ 63 + 2 ^ 64)); lia.
Qed.

Lemma itemsize_bits_cases (d : dtype) (w : Z) :
  itemsize_bits d = Some w → w = 8 ∨ w = 16 ∨ w = 32 ∨ w = 64.
Proof. destruct d; intros [= <-]; auto. Qed.

(** A scalar that fits the dtype of the array does not widen it. *)
Lemma promote_types_fits (d : dtype) (w s : Z) :
  itemsize_bits d = Some w → 0 ≤ s < 2 ^ w →
  promote_types d (min_scalar_type (Z.to_nat s)) = d.
Proof.
  intros Hw Hs. unfold min_scalar_type. cbv zeta. rewrite Z2Nat.id by lia.
  destruct d; simplify_eq/=;
    repeat (match goal with
            | |- context [?a <=? ?b] => destruct (Z.leb_spec a b)
            end; try done; try lia).
Qed.

Lemma mod_wrap_negative (z m : Z) : - m ≤ z < 0 → z `mod` m = z + m.
Proof. intros Hz. symmetry. apply (Z.mod_unique_pos _ _ (-1)); lia. Qed.

(** The offset that [features] computes for an iloc [v] of an array of
    dtype [dt] and a type with the range [[s, s + rows)], in a store of [n]
    elements: the offset is [v - s] when that is a row of the type;
    otherwise it is negative, or out of the rows after the conversion to a
    64-bit signed integer. *)
Lemma feature_offset (dt : iloc_dtype) (s rows n v : Z) :
  0 ≤ s → 0 ≤ rows → s + rows ≤ n → n ≤ sys_maxsize →
  holds_ilocs dt n → cast dt v = v →
  (0 ≤ v - s < rows →
     cast (sub_result_type dt s) (v - s) = v - s ∧
     wrap_int64 (cast (sub_result_type dt s) (v - s)) = v - s) ∧
  (¬ (0 ≤ v - s < rows) →
     cast (sub_result_type dt s) (v - s) < 0 ∨
     ¬ (0 ≤ wrap_int64 (cast (sub_result_type dt s) (v - s)) < rows)).
Proof.
  unfold sys_maxsize. intros Hs Hrows0 Hrows Hn Hdt Hv. destruct dt as [|d]; simpl in *.
  - pose proof (wrap_int64_range v) as Hrange. rewrite Hv in Hrange. split.
    + intros Hin. rewrite (wrap_int64_small (v - s)) by lia.
      rewrite wrap_int64_small; lia.
    + intros Hout.
      destruct (decide (v - s < - 2 ^ 63)) as [Hlow|Hlow].
      * right. rewrite (wrap_int64_below (v - s)) by lia.
        rewrite wrap_int64_small by lia. lia.
      * rewrite (wrap_int64_small (v - s)) by lia.
        rewrite wrap_int64_small by lia. lia.
  - destruct (itemsize_bits d) as [w|] eqn:Hw; [|done].
    rewrite (promote_types_fits d w) by (done || lia).
    unfold astype1 in *. rewrite Hw in *.
    assert (0 < 2 ^ w ≤ 2 ^ 64) as Hpow.
    { destruct (itemsize_bits_cases d w Hw) as [->|[->|[->| ->]]]; lia. }
    pose proof (Z.mod_pos_bound v (2 ^ w)) as Hvr. rewrite Hv in Hvr.
    split.
    + intros Hin. rewrite Z.mod_small by lia. rewrite wrap_int64_small; lia.
    + intros Hout. right.
      destruct (decide (v - s < 0)) as [Hneg|Hpos].
      * rewrite mod_wrap_negative by lia.
        destruct (decide (v - s + 2 ^ w < 2 ^ 63)).
        -- rewrite wrap_int64_small by lia. lia.
        -- rewrite wrap_int64_above by lia. lia.
      * rewrite Z.mod_small by lia.
        destruct (decide (v - s < 2 ^ 63)).
        -- rewrite wrap_int64_small by lia. lia.
        -- rewrite wrap_int64_above by lia. lia.
Qed.

Lemma cast_holds (dt : iloc_dtype) (n v : Z) :
  holds_ilocs dt n → 0 ≤ v ≤ n → cast dt v = v.
Proof.
  destruct dt as [|d]; simpl.
  - intros Hn Hv. apply wrap_int64_small. lia.
  - unfold astype1. destruct (itemsize_bits d) as [w|]; [|done].
    intros Hn Hv. apply Z.mod_small. lia.
Qed.

Lemma holds_ilocs_min_scalar_type (n : nat) :
  Z.of_nat n ≤ sys_maxsize → holds_ilocs (compact (min_scalar_type n)) (Z.of_nat n).
Proof.
  intros Hn. simpl. destruct (min_scalar_type_unsigned n Hn) as [w Hw].
  rewrite Hw. apply min_scalar_type_fits in Hw. lia.
Qed.

Lemma astype_int_sub_scalar (a : ndarray) (s n : Z) :
  0 ≤ s ≤ n → holds_ilocs (nd_dtype a) n →
  astype_int (sub_scalar a s) = Ok (wrap_int64 <$> nd_values (sub_scalar a s)).
Proof.
  intros Hs Hdt. unfold astype_int, sub_scalar. cbn [nd_dtype nd_values].
  destruct (nd_dtype a) as [|d]; simpl in *; [done|].
  destruct (itemsize_bits d) as [w|] eqn:Hw; [|done].
  rewrite (promote_types_fits d w) by (done || lia).
  by destruct d.
Qed.

Lemma promote_types_unsigned (d1 d2 : dtype) :
  is_Some (itemsize_bits d1) → is_Some (itemsize_bits d2) →
  ∃ w, itemsize_bits (promote_types d1 d2) = Some w ∧ 0 < 2 ^ w.
Proof.
  destruct d1, d2; intros [? ?] [? ?]; simplify_eq/=; eexists; (split; [done|lia]).
Qed.

Lemma astype1_min_scalar_type (n i : nat) :
  (i < n)%nat → astype1 (min_scalar_type n) (Z.of_nat i) = Z.of_nat i.
Proof.
  intros Hi. destruct (itemsize_bits (min_scalar_type n)) as [w|] eqn:Hw.
  - apply (astype1_small _ w); [done|]. apply min_scalar_type_fits in Hw. lia.
  - unfold astype1. by rewrite Hw.
Qed.

Lemma StronglySorted_lookup_lt {A : Type} (R : relation A) (l : list A)
    (i j : nat) (x y : A) :
  StronglySorted R l → (i < j)%nat → l !! i = Some x → l !! j = Some y → R x y.
Proof.
  intros Hs. revert i j. induction Hs as [|z l Hs IH Hall]; intros i j Hij Hi Hj.
  - done.
  - destruct j as [|j]; [lia|]. destruct i as [|i]; simplify_eq/=.
    + eapply Forall_forall; [done|]. by eapply list_elem_of_lookup_2.
    + apply (IH i j); [lia|done..].
Qed.

Lemma get_loc_range (index : list ident) (id : ident) :
  -1 ≤ get_loc index id < Z.of_nat (length index).
Proof.
  induction index as [|x rest IH]; simpl; [lia|].
  case_decide; [lia|]. case_match; lia.
Qed.

Lemma get_loc_not_elem (index : list ident) (id : ident) :
  id ∉ index → get_loc index id = -1.
Proof.
  induction index as [|x rest IH]; simpl; [done|].
  rewrite not_elem_of_cons. intros [Hne Hnot].
  rewrite decide_False by done. rewrite IH by done. done.
Qed.

Lemma get_loc_elem (index : list ident) (id : ident) :
  id ∈ index →
  ∃ i : nat, get_loc index id = Z.of_nat i ∧ index !! i = Some id.
Proof.
  induction index as [|x rest IH]; simpl.
  - by intros ?%elem_of_nil.
  - intros Hin. case_decide as Hx.
    + exists 0%nat. by subst.
    + apply elem_of_cons in Hin as [->|Hin]; [done|].
      destruct (IH Hin) as (i & Hi & Hl). exists (S i). rewrite Hi.
      split; [|done]. case_match; lia.
Qed.

Lemma get_loc_lookup_NoDup (index : list ident) (k : nat) (id : ident) :
  NoDup index → index !! k = Some id → get_loc index id = Z.of_nat k.
Proof.
  intros Hnd Hk.
  destruct (get_loc_elem index id) as (i & Hi & Hl).
  { by eapply list_elem_of_lookup_2. }
  rewrite Hi. f_equal. eapply NoDup_lookup; eauto.
Qed.

Lemma getitem1_in_range {A : Type} (a : list A) (i : nat) (x : A) :
  a !! i = Some x → getitem1 a (Z.of_nat i) = Ok x.
Proof.
  intros Hi. pose proof (lookup_lt_Some _ _ _ Hi) as Hlt.
  unfold getitem1. cbv zeta.
  rewrite (proj2 (Z.ltb_ge _ _)) by lia.
  rewrite (proj2 (Z.leb_le _ _)) by lia.
  rewrite (proj2 (Z.ltb_lt _ _)) by lia. simpl.
  by rewrite Nat2Z.id, Hi.
Qed.

Lemma getitem1_negative {A : Type} (a : list A) (i : Z) :
  - Z.of_nat (length a) ≤ i < 0 →
  ∃ x, getitem1 a i = Ok x ∧ a !! Z.to_nat (Z.of_nat (length a) + i) = Some x.
Proof.
  intros Hi. unfold getitem1. cbv zeta.
  rewrite (proj2 (Z.ltb_lt _ _)) by lia.
  rewrite (proj2 (Z.leb_le _ _)) by lia.
  rewrite (proj2 (Z.ltb_lt _ _)) by lia. simpl.
  replace (i + Z.of_nat (length a)) with (Z.of_nat (length a) + i) by lia.
  destruct (a !! Z.to_nat (Z.of_nat (length a) + i)) as [x|] eqn:Hx; [eauto|].
  apply lookup_ge_None in Hx. lia.
Qed.

Lemma getitem1_out_of_bounds {A : Type} (a : list A) (i : Z) :
  i < - Z.of_nat (length a) ∨ Z.of_nat (length a) ≤ i →
  getitem1 a i = Raise IndexError.
Proof.
  intros Hi. unfold getitem1. cbv zeta.
  destruct (Z.ltb_spec i 0).
  - rewrite (proj2 (Z.leb_gt _ _)) by lia. done.
  - rewrite (proj2 (Z.ltb_ge _ _)) by lia. by rewrite andb_false_r.
Qed.

(** ** ExternalIdIndex *)

Section index_properties.

Variable comma_sep : list ident → string.
Variable asarray : list ident → list np_scalar.

Lemma ExternalIdIndex_init_Ok (ids : list ident) (self : ExternalIdIndex) :
  ExternalIdIndex_init comma_sep ids = Ok self →
  NoDup ids ∧ _index self = ids ∧ _dtype self = min_scalar_type (length ids).
Proof.
  unfold ExternalIdIndex_init, is_unique. cbv zeta.
  case_bool_decide; simpl; [|done]. by intros [= <-].
Qed.

Lemma is_valid_get_loc (self : ExternalIdIndex) (id : ident) :
  ((0 <=? get_loc (_index self) id) && (get_loc (_index self) id <? len self)) = true
  ↔ id ∈ _index self.
Proof.
  unfold len. pose proof (get_loc_range (_index self) id) as Hr. split.
  - intros [H0 _]%andb_true_iff. apply Z.leb_le in H0.
    destruct (decide (id ∈ _index self)) as [|Hn]; [done|].
    apply get_loc_not_elem in Hn. lia.
  - intros (i & Hi & _)%get_loc_elem. apply andb_true_iff.
    split; [apply Z.leb_le; lia | apply Z.ltb_lt; lia].
Qed.

Lemma missing_values_filter {A : Type} (self : ExternalIdIndex)
    (ids : list ident) (values : list A) :
  length values = length ids →
  getitem_mask values (negb <$> is_valid self (get_indexer (_index self) ids))
  = entries_of_unknown (_index self) ids values.
Proof.
  unfold is_valid, get_indexer, entries_of_unknown. revert values.
  induction ids as [|x rest IH]; intros [|v values] Hlen; simplify_eq/=; [done|].
  rewrite (IH values) by done.
  destruct ((0 <=? get_loc (_index self) x) && (get_loc (_index self) x <? len self))
    eqn:Hx; simpl.
  - apply is_valid_get_loc in Hx. by rewrite filter_cons_False by naive_solver.
  - rewrite filter_cons_True; [done|]. simpl. intros Hin%is_valid_get_loc. congruence.
Qed.

Lemma all_valid_iff (self : ExternalIdIndex) (ids : list ident) :
  forallb (λ b, b) (is_valid self (get_indexer (_index self) ids)) = true
  ↔ filter (λ id, id ∉ _index self) ids = [].
Proof.
  unfold is_valid, get_indexer.
  induction ids as [|x rest IH]; [done|].
  cbn [fmap list_fmap forallb]. cbn [fmap list_fmap] in IH.
  rewrite andb_true_iff, IH, is_valid_get_loc.
  destruct (decide (x ∈ _index self)).
  - rewrite filter_cons_False by naive_solver. naive_solver.
  - rewrite filter_cons_True by done. naive_solver.
Qed.

(** What [require_valid] does on the result of [get_indexer]. *)
Lemma require_valid_get_indexer (self : ExternalIdIndex) (ids : list ident) :
  require_valid asarray self ids (get_indexer (_index self) ids) =
    match filter (λ id, id ∉ _index self) ids with
    | [] => Ok ()
    | _ =>
        Raise (KeyError (missing_key
          (getitem_mask (asarray ids)
             (negb <$> is_valid self (get_indexer (_index self) ids)))))
    end.
Proof.
  unfold require_valid, missing_key. cbv zeta.
  destruct (forallb _ _) eqn:Hall; simpl.
  - apply all_valid_iff in Hall. by rewrite Hall.
  - destruct (filter _ ids) as [|m rest] eqn:Hf.
    + apply all_valid_iff in Hf. congruence.
    + by destruct (getitem_mask _ _) as [|? [|? ?]].
Qed.

Lemma to_iloc_non_strict (self : ExternalIdIndex) (ids : list ident) (smaller_type : bool) :
  to_iloc asarray self ids smaller_type false =
    Ok ((λ id, if smaller_type then astype1 (_dtype self) (get_loc (_index self) id)
               else get_loc (_index self) id) <$> ids).
Proof.
  unfold to_iloc, astype, get_indexer. simpl. destruct smaller_type; [|done].
  by rewrite <- list_fmap_compose.
Qed.

Lemma to_iloc_strict (self : ExternalIdIndex) (ids : list ident) (smaller_type : bool) :
  to_iloc asarray self ids smaller_type true =
    match filter (λ id, id ∉ _index self) ids with
    | [] => to_iloc asarray self ids smaller_type false
    | _ =>
        Raise (KeyError (missing_key
          (getitem_mask (asarray ids)
             (negb <$> is_valid self (get_indexer (_index self) ids)))))
    end.
Proof.
  unfold to_iloc. cbv zeta. rewrite require_valid_get_indexer.
  destruct (filter _ ids) as [|m rest]; done.
Qed.

(** The ilocs of known identifiers survive the conversion to the compact
    dtype. *)
Lemma astype1_get_loc_known (ids0 : list ident) (self : ExternalIdIndex) (i : nat) :
  ExternalIdIndex_init comma_sep ids0 = Ok self →
  (i < length (_index self))%nat →
  astype1 (_dtype self) (Z.of_nat i) = Z.of_nat i.
Proof.
  intros (_ & Hidx & Hdt)%ExternalIdIndex_init_Ok Hi.
  destruct (itemsize_bits (_dtype self)) as [w|] eqn:Hw.
  - apply (astype1_small _ w); [done|].
    rewrite Hdt in Hw. apply min_scalar_type_fits in Hw. rewrite Hidx in Hi. lia.
  - unfold astype1. by rewrite Hw.
Qed.

(** C1: on a constructed index, [to_iloc] sends every known identifier to
    its position and every unknown one to the sentinel, which is the
    largest value of the compact dtype when [smaller_type] is set and [-1]
    otherwise; with [strict], any unknown identifier makes the call raise
    the [KeyError] of [require_valid]; the error carries the entries of
    [np.asarray(ids)] at the positions of the unknown identifiers: the
    entry itself when there is one, the array of them when there are
    more. *)
Theorem to_iloc_known_unknown (ids0 : list ident) (self : ExternalIdIndex)
    (ids : list ident) (smaller_type strict : bool) :
  ExternalIdIndex_init comma_sep ids0 = Ok self →
  Z.of_nat (length ids0) ≤ sys_maxsize →
  ∃ dtype_max : Z, iinfo_max (_dtype self) = Some dtype_max ∧
    ((strict = false ∨ ∀ id, id ∈ ids → id ∈ _index self) →
      ∃ ilocs : list Z,
        to_iloc asarray self ids smaller_type strict = Ok ilocs ∧
        length ilocs = length ids ∧
        ∀ (k : nat) (id : ident), ids !! k = Some id →
          (id ∈ _index self →
             ∃ i : nat, ilocs !! k = Some (Z.of_nat i) ∧ _index self !! i = Some id) ∧
          (id ∉ _index self →
             ilocs !! k = Some (if smaller_type then dtype_max else -1))) ∧
    (strict = true → (∃ id, id ∈ ids ∧ id ∉ _index self) →
      length (asarray ids) = length ids →
      ∃ e : exception,
        to_iloc asarray self ids smaller_type strict = Raise e ∧
        require_valid asarray self ids (get_indexer (_index self) ids) = Raise e ∧
        let missing_values := entries_of_unknown (_index self) ids (asarray ids) in
        e = KeyError
              match missing_values with
              | [m] => KeyItem m
              | _ => KeyArray missing_values
              end).
Proof.
  intros Hinit Hlen.
  pose proof (ExternalIdIndex_init_Ok _ _ Hinit) as (Hnd & Hidx & Hdt).
  destruct (min_scalar_type_unsigned (length ids0) Hlen) as [w Hw].
  rewrite <- Hdt in Hw.
  exists (2 ^ w - 1). split; [|split].
  - unfold iinfo_max. by rewrite Hw.
  - intros Hok.
    assert (to_iloc asarray self ids smaller_type strict = to_iloc asarray self ids smaller_type false)
      as ->.
    { destruct strict; [|done]. destruct Hok as [|Hall]; [done|].
      rewrite to_iloc_strict.
      destruct (filter (λ id, id ∉ _index self) ids) as [|m rest] eqn:Hf; [done|].
      assert (m ∈ filter (λ id, id ∉ _index self) ids) as Hm
        by (rewrite Hf; left).
      apply list_elem_of_filter in Hm as [Hm1 Hm2]. destruct Hm1; auto. }
    rewrite to_iloc_non_strict. eexists. split; [done|].
    split; [by rewrite length_fmap|].
    intros k id Hk. rewrite list_lookup_fmap, Hk. simpl. split.
    + intros (i & Hi & Hl)%get_loc_elem. exists i. split; [|done].
      rewrite Hi. destruct smaller_type; [|done]. f_equal.
      eapply astype1_get_loc_known; [done|]. by eapply lookup_lt_Some.
    + intros ->%get_loc_not_elem. destruct smaller_type; [|done].
      by rewrite (astype1_minus_one _ w).
  - intros -> (id & Hin & Hnot) Harr.
    rewrite to_iloc_strict, require_valid_get_indexer.
    assert (id ∈ filter (λ id, id ∉ _index self) ids) as Hf.
    { by apply list_elem_of_filter. }
    destruct (filter _ ids) as [|m rest].
    + by apply elem_of_nil in Hf.
    + rewrite missing_values_filter by done.
      eexists. split; [done|]. split; done.
Qed.

(** C4 (as amended): the compact dtype of a constructed index is the
    narrowest unsigned integer dtype that holds the length [n] of the index
    itself (not merely [n - 1]). *)
Theorem dtype_minimal_for_length (ids0 : list ident) (self : ExternalIdIndex) :
  ExternalIdIndex_init comma_sep ids0 = Ok self →
  Z.of_nat (length ids0) ≤ sys_maxsize →
  ∃ w : Z, itemsize_bits (_dtype self) = Some w ∧
    len self ≤ 2 ^ w - 1 ∧
    ∀ (d' : dtype) (w' : Z),
      itemsize_bits d' = Some w' → len self ≤ 2 ^ w' - 1 → w ≤ w'.
Proof.
  intros (_ & Hidx & Hdt)%ExternalIdIndex_init_Ok Hlen.
  destruct (min_scalar_type_unsigned (length ids0) Hlen) as [w Hw].
  exists w. unfold len. rewrite Hidx, Hdt. split; [done|]. split.
  - by apply min_scalar_type_fits.
  - intros d' w' Hd' Hfit. by eapply min_scalar_type_minimal.
Qed.

(** C5 (as amended): on a constructed index, [from_iloc] of an iloc outside
    [0, length) raises [IndexError] when the iloc is at least [length] or
    below [-length]; a negative iloc from [-length] on counts from the end
    and yields the identifier at position [length + iloc]. *)
Theorem from_iloc_out_of_range (ids0 : list ident) (self : ExternalIdIndex) (iloc : Z) :
  ExternalIdIndex_init comma_sep ids0 = Ok self →
  ¬ (0 ≤ iloc < len self) →
  (iloc < - len self ∨ len self ≤ iloc → from_iloc self [iloc] = Raise IndexError) ∧
  (- len self ≤ iloc < 0 →
     ∃ id : ident, from_iloc self [iloc] = Ok [id] ∧
       _index self !! Z.to_nat (len self + iloc) = Some id).
Proof.
  intros _ Hout. unfold from_iloc, len in *. simpl. split.
  - intros Hi. by rewrite getitem1_out_of_bounds.
  - intros Hi. destruct (getitem1_negative (_index self) iloc Hi) as (id & -> & Hl).
    simpl. eauto.
Qed.

(** C7: on a constructed index, [from_iloc] undoes [to_iloc] on every known
    identifier, whatever [smaller_type] and [strict] are. *)
Theorem from_iloc_to_iloc (ids0 : list ident) (self : ExternalIdIndex) (id : ident)
    (smaller_type strict : bool) :
  ExternalIdIndex_init comma_sep ids0 = Ok self →
  id ∈ _index self →
  ∃ ilocs : list Z,
    to_iloc asarray self [id] smaller_type strict = Ok ilocs ∧
    from_iloc self ilocs = Ok [id].
Proof.
  intros Hinit Hin.
  assert (to_iloc asarray self [id] smaller_type strict = to_iloc asarray self [id] smaller_type false)
    as ->.
  { destruct strict; [|done]. rewrite to_iloc_strict.
    by rewrite filter_cons_False, filter_nil by naive_solver. }
  rewrite to_iloc_non_strict. eexists. split; [done|]. simpl.
  destruct (get_loc_elem _ _ Hin) as (i & -> & Hi).
  assert ((if smaller_type then astype1 (_dtype self) (Z.of_nat i) else Z.of_nat i)
          = Z.of_nat i) as ->.
  { destruct smaller_type; [|done].
    eapply astype1_get_loc_known; [done|]. by eapply lookup_lt_Some. }
  unfold from_iloc. simpl. by rewrite (getitem1_in_range _ _ id).
Qed.

(** C10: on a constructed index, the compact sentinel (what [-1] becomes in
    the unsigned dtype, the largest value of that dtype) is at least the
    length of the index; so no known identifier is mapped to it and
    [is_valid] flags it false. *)
Theorem sentinel_outside_index (ids0 : list ident) (self : ExternalIdIndex) :
  ExternalIdIndex_init comma_sep ids0 = Ok self →
  Z.of_nat (length ids0) ≤ sys_maxsize →
  ∃ sentinel : Z,
    iinfo_max (_dtype self) = Some sentinel ∧
    astype1 (_dtype self) (-1) = sentinel ∧
    (∀ id, id ∉ _index self → to_iloc asarray self [id] true false = Ok [sentinel]) ∧
    len self ≤ sentinel ∧
    (∀ id, id ∈ _index self →
       ∃ iloc, to_iloc asarray self [id] true false = Ok [iloc] ∧ 0 ≤ iloc < len self ∧
               iloc ≠ sentinel) ∧
    is_valid self [sentinel] = [false].
Proof.
  intros Hinit Hlen.
  pose proof (ExternalIdIndex_init_Ok _ _ Hinit) as (Hnd & Hidx & Hdt).
  destruct (min_scalar_type_unsigned (length ids0) Hlen) as [w Hw].
  pose proof (min_scalar_type_fits _ _ Hw) as Hfit.
  rewrite <- Hdt in Hw.
  assert (len self ≤ 2 ^ w - 1) as Hle by (unfold len; by rewrite Hidx).
  exists (2 ^ w - 1). repeat split.
  - unfold iinfo_max. by rewrite Hw.
  - by apply astype1_minus_one.
  - intros id Hid%get_loc_not_elem. rewrite to_iloc_non_strict.
    cbn [fmap list_fmap]. by rewrite Hid, (astype1_minus_one _ w).
  - done.
  - intros id (i & Hi & Hl)%get_loc_elem. apply lookup_lt_Some in Hl.
    exists (Z.of_nat i). rewrite to_iloc_non_strict.
    cbn [fmap list_fmap]. rewrite Hi.
    rewrite (astype1_get_loc_known ids0) by done. unfold len in *. repeat split; lia.
  - unfold is_valid. simpl. do 2 f_equal.
    rewrite (proj2 (Z.ltb_ge _ _)) by lia. by rewrite andb_false_r.
Qed.

End index_properties.

(** ** Duplicated identifiers *)

Lemma occurs_twice_cons (x y : ident) (l : list ident) :
  occurs_twice x (y :: l) ↔ (x = y ∧ x ∈ l) ∨ occurs_twice x l.
Proof.
  unfold occurs_twice. split.
  - intros (l1 & l2 & l3 & Heq). destruct l1 as [|z l1]; simplify_eq/=.
    + left. split; [done|]. apply elem_of_app. right. left.
    + right. eauto.
  - intros [[-> (l2 & l3 & ->)%list_elem_of_split]|(l1 & l2 & l3 & ->)].
    + by exists [], l2, l3.
    + by exists (y :: l1), l2, l3.
Qed.

Lemma occurs_twice_nil (x : ident) : ¬ occurs_twice x [].
Proof. intros (l1 & l2 & l3 & Heq). by destruct l1. Qed.

Lemma occurs_twice_elem_of (x : ident) (l : list ident) : occurs_twice x l → x ∈ l.
Proof. intros (l1 & l2 & l3 & ->). apply elem_of_app. right. left. Qed.

Lemma occurs_twice_app (x : ident) (l1 l2 : list ident) :
  occurs_twice x (l1 ++ l2)
  ↔ occurs_twice x l1 ∨ occurs_twice x l2 ∨ (x ∈ l1 ∧ x ∈ l2).
Proof.
  induction l1 as [|y l1 IH]; simpl.
  - pose proof (occurs_twice_nil x). pose proof (not_elem_of_nil x). naive_solver.
  - rewrite !occurs_twice_cons, IH, elem_of_app, elem_of_cons. naive_solver.
Qed.

Lemma NoDup_occurs_twice (l : list ident) : NoDup l ↔ ∀ x, ¬ occurs_twice x l.
Proof.
  induction l as [|y l IH].
  - split; [intros _ x; apply occurs_twice_nil | constructor].
  - rewrite NoDup_cons, IH. setoid_rewrite occurs_twice_cons. naive_solver.
Qed.

Lemma not_NoDup_occurs_twice (l : list ident) : ¬ NoDup l ↔ ∃ x, occurs_twice x l.
Proof.
  split; [|rewrite NoDup_occurs_twice; naive_solver].
  induction l as [|y l IH]; intros Hn.
  - destruct Hn. constructor.
  - destruct (decide (y ∈ l)) as [Hy|Hy].
    + exists y. apply occurs_twice_cons. by left.
    + destruct IH as [x Hx].
      * intros Hnd. apply Hn. by constructor.
      * exists x. apply occurs_twice_cons. by right.
Qed.

Lemma elem_of_duplicated_from (seen l : list ident) (x : ident) :
  x ∈ getitem_mask l (duplicated_from seen l)
  ↔ (x ∈ seen ∧ x ∈ l) ∨ occurs_twice x l.
Proof.
  revert seen. induction l as [|y l IH]; intros seen; simpl.
  - pose proof (occurs_twice_nil x). pose proof (not_elem_of_nil x). naive_solver.
  - rewrite occurs_twice_cons, elem_of_cons. case_bool_decide as Hy.
    + rewrite elem_of_cons, IH, elem_of_cons. naive_solver.
    + rewrite IH, elem_of_cons. naive_solver.
Qed.

Lemma elem_of_unique_from (seen l : list ident) (x : ident) :
  x ∈ unique_from seen l ↔ x ∈ l ∧ x ∉ seen.
Proof.
  revert seen. induction l as [|y l IH]; intros seen; simpl.
  - pose proof (not_elem_of_nil x). naive_solver.
  - case_decide as Hy.
    + rewrite IH, elem_of_cons. naive_solver.
    + rewrite elem_of_cons, IH. rewrite !elem_of_cons.
      destruct (decide (x = y)); naive_solver.
Qed.

Lemma NoDup_unique_from (seen l : list ident) : NoDup (unique_from seen l).
Proof.
  revert seen. induction l as [|y l IH]; intros seen; simpl; [constructor|].
  case_decide; [done|]. constructor; [|done].
  rewrite elem_of_unique_from, not_elem_of_cons. naive_solver.
Qed.

(** The values that the duplicate error lists. *)
Lemma duplicated_values (l : list ident) :
  NoDup (unique (getitem_mask l (duplicated l))) ∧
  ∀ x, x ∈ unique (getitem_mask l (duplicated l)) ↔ occurs_twice x l.
Proof.
  split; [apply NoDup_unique_from|]. intros x. unfold unique, duplicated.
  rewrite elem_of_unique_from, elem_of_duplicated_from.
  pose proof (not_elem_of_nil x). naive_solver.
Qed.

(** ** ElementData *)

Lemma sorted_keys_Permutation {V : Type} (d : gmap string V) :
  sorted_keys d ≡ₚ (map_to_list d).*1.
Proof. apply merge_sort_Permutation. Qed.

Lemma elem_of_sorted_keys {V : Type} (d : gmap string V) (t : string) :
  t ∈ sorted_keys d ↔ is_Some (d !! t).
Proof.
  rewrite sorted_keys_Permutation, list_elem_of_fmap. split.
  - intros ([t' v] & -> & Hin%elem_of_map_to_list). eauto.
  - intros [v Hv]. exists (t, v). split; [done|]. by apply elem_of_map_to_list.
Qed.

Lemma NoDup_sorted_keys {V : Type} (d : gmap string V) : NoDup (sorted_keys d).
Proof. rewrite sorted_keys_Permutation. apply NoDup_fst_map_to_list. Qed.

Lemma StronglySorted_sorted_keys {V : Type} (d : gmap string V) :
  StronglySorted String.le (sorted_keys d).
Proof. apply StronglySorted_merge_sort; apply _. Qed.

Lemma offset_0 {A : Type} (tables : list (list A)) : offset tables 0 = 0.
Proof. done. Qed.

Lemma offset_S {A : Type} (df : list A) (tables : list (list A)) (k : nat) :
  offset (df :: tables) (S k) = Z.of_nat (length df) + offset tables k.
Proof. unfold offset. simpl. rewrite length_app. lia. Qed.

Lemma offset_nonneg {A : Type} (tables : list (list A)) (k : nat) : 0 ≤ offset tables k.
Proof. unfold offset. lia. Qed.

Lemma offset_all {A : Type} (tables : list (list A)) (k : nat) :
  (length tables ≤ k)%nat → offset tables k = Z.of_nat (length (concat tables)).
Proof. intros Hk. unfold offset. by rewrite firstn_all2. Qed.

Lemma offset_succ {A : Type} (tables : list (list A)) (k : nat) (df : list A) :
  tables !! k = Some df →
  offset tables (S k) = offset tables k + Z.of_nat (length df).
Proof.
  revert k. induction tables as [|df0 tables IH]; intros k Hk; [done|].
  destruct k as [|k]; simplify_eq/=.
  - rewrite offset_S, !offset_0. lia.
  - rewrite !offset_S, (IH k) by done. lia.
Qed.

Lemma offset_mono {A : Type} (tables : list (list A)) (j k : nat) :
  (j ≤ k)%nat → offset tables j ≤ offset tables k.
Proof.
  revert j k. induction tables as [|df tables IH]; intros j k Hjk.
  - unfold offset. by rewrite !firstn_nil.
  - destruct j as [|j]; [rewrite offset_0; apply offset_nonneg|].
    destruct k as [|k]; [lia|]. rewrite !offset_S.
    specialize (IH j k). lia.
Qed.

(** Every row of the concatenation lies in exactly one table. *)
Lemma offset_cover {A : Type} (tables : list (list A)) (i : Z) :
  0 ≤ i < Z.of_nat (length (concat tables)) →
  ∃ (k : nat) (df : list A), tables !! k = Some df ∧
    offset tables k ≤ i < offset tables k + Z.of_nat (length df).
Proof.
  revert i. induction tables as [|df0 tables IH]; intros i Hi; simpl in Hi; [lia|].
  rewrite length_app in Hi.
  destruct (decide (i < Z.of_nat (length df0))) as [Hlt|Hge].
  - exists 0%nat, df0. rewrite offset_0. split; [done|lia].
  - destruct (IH (i - Z.of_nat (length df0))) as (k & df & Hk & Hr); [lia|].
    exists (S k), df. rewrite offset_S. split; [done|lia].
Qed.

Lemma concat_lookup_offset {A : Type} (tables : list (list A)) (k j : nat)
    (df : list A) :
  tables !! k = Some df → (j < length df)%nat →
  concat tables !! (Z.to_nat (offset tables k) + j)%nat = df !! j.
Proof.
  intros Hk Hj. unfold offset. rewrite Nat2Z.id.
  assert (concat tables = concat (take k tables) ++ df ++ concat (drop (S k) tables))
    as ->.
  { rewrite <- (take_drop_middle tables k df Hk) at 1. by rewrite concat_app. }
  rewrite lookup_app_r by lia.
  replace (length (concat (take k tables)) + j - length (concat (take k tables)))%nat
    with j by lia.
  by rewrite lookup_app_l.
Qed.

Lemma repeat_counts_lookup_offset {A B : Type} (codes : list B)
    (tables : list (list A)) (k j : nat) (c : B) (df : list A) :
  codes !! k = Some c → tables !! k = Some df → (j < length df)%nat →
  repeat_counts codes (length <$> tables) !! (Z.to_nat (offset tables k) + j)%nat
  = Some c.
Proof.
  revert tables k. induction codes as [|c0 codes IH]; intros tables k Hc Hk Hj; [done|].
  destruct tables as [|df0 tables]; [done|]. simpl.
  destruct k as [|k]; simplify_eq/=.
  - rewrite lookup_app_l by (by rewrite length_replicate).
    by apply lookup_replicate_2.
  - rewrite offset_S. pose proof (offset_nonneg tables k).
    rewrite lookup_app_r; rewrite length_replicate; [|lia].
    replace (Z.to_nat (Z.of_nat (length df0) + offset tables k) + j - length df0)%nat
      with (Z.to_nat (offset tables k) + j)%nat by lia.
    by apply IH.
Qed.

Lemma assign_ranges_not_elem {A : Type} (ts : list string) (tables : list (list A))
    (rows : Z) (m : gmap string range) (t : string) :
  t ∉ ts → assign_ranges ts tables rows m !! t = m !! t.
Proof.
  revert tables rows m. induction ts as [|t0 ts IH]; intros tables rows m Hn; [done|].
  destruct tables as [|df tables]; [done|]. simpl.
  apply not_elem_of_cons in Hn as [Hne Hn].
  rewrite IH by done. by rewrite lookup_insert_ne.
Qed.

Lemma assign_ranges_lookup {A : Type} (ts : list string) (tables : list (list A))
    (rows : Z) (m : gmap string range) (k : nat) (t : string) (df : list A) :
  NoDup ts → ts !! k = Some t → tables !! k = Some df →
  assign_ranges ts tables rows m !! t
  = Some (mkRange (rows + offset tables k)
                  (rows + offset tables k + Z.of_nat (length df))).
Proof.
  revert tables rows m k.
  induction ts as [|t0 ts IH]; intros tables rows m k Hnd Ht Hdf; [done|].
  destruct tables as [|df0 tables]; [done|]. simpl.
  apply NoDup_cons in Hnd as [Hnot Hnd].
  destruct k as [|k]; simplify_eq/=.
  - rewrite assign_ranges_not_elem by done. rewrite lookup_insert_eq, offset_0.
    do 2 f_equal; lia.
  - rewrite (IH _ _ _ k) by done. rewrite offset_S. do 2 f_equal; lia.
Qed.

Section typed_store_properties.

Variable comma_sep : list ident → string.
Variable asarray : list ident → list np_scalar.

Context {R : Type}.

Implicit Types (shared : gmap string (DataFrame R)).

Lemma tables_of_lookup shared (ts : list string) (k : nat) (t : string) :
  ts !! k = Some t →
  tables_of shared ts !! k = Some (default [] (shared !! t)).
Proof. intros Hk. unfold tables_of. by rewrite list_lookup_fmap, Hk. Qed.

Lemma init_loop_run shared (ts : list string) (st : init_locals (R := R)) :
  (∀ t, t ∈ ts → is_Some (shared !! t)) →
  foldM (init_loop_body shared) ts st =
    Ok {| type_element_ilocs :=
            assign_ranges ts (tables_of shared ts) (rows_so_far st)
              (type_element_ilocs st);
          rows_so_far :=
            rows_so_far st + Z.of_nat (length (concat (tables_of shared ts)));
          type_sizes := type_sizes st ++ (length <$> tables_of shared ts);
          type_dfs := type_dfs st ++ tables_of shared ts |}.
Proof.
  revert st. induction ts as [|t ts IH]; intros st Hdom.
  - simpl. destruct st. simpl. rewrite !app_nil_r. do 2 f_equal. lia.
  - destruct (Hdom t) as [df Hdf]; [left|].
    cbn [foldM]. unfold init_loop_body at 1, dict_getitem. rewrite Hdf.
    cbn [bind]. rewrite IH by (intros; apply Hdom; by right).
    assert (tables_of shared (t :: ts) = df :: tables_of shared ts) as ->.
    { unfold tables_of. simpl. by rewrite Hdf. }
    cbn [fmap list_fmap concat assign_ranges
         type_element_ilocs rows_so_far type_sizes type_dfs].
    rewrite length_app, <- !app_assoc.
    do 2 f_equal. lia.
Qed.

(** [ElementData.__init__] with its loop run: the only step that can raise
    is the construction of the identifier index. *)
Lemma ElementData_init_unfold shared :
  ElementData_init comma_sep asarray shared =
    (id_index <-
       ExternalIdIndex_init comma_sep
         (concat (tables_of shared (sorted_keys shared))).*1 ;;
     Ok {| _id_index := id_index;
           _columns := (concat (tables_of shared (sorted_keys shared))).*2;
           _type_index :=
             mkExternalIdIndex (IdStr <$> sorted_keys shared)
               (min_scalar_type (length (IdStr <$> sorted_keys shared)));
           _type_column :=
             repeat_counts
               (astype (min_scalar_type (length (IdStr <$> sorted_keys shared)))
                  (get_indexer (IdStr <$> sorted_keys shared)
                     (IdStr <$> sorted_keys shared)))
               (length <$> tables_of shared (sorted_keys shared));
           _type_element_ilocs :=
             assign_ranges (sorted_keys shared)
               (tables_of shared (sorted_keys shared)) 0 ∅ |}).
Proof.
  unfold ElementData_init. cbv zeta.
  rewrite init_loop_run by (by intros t ?%elem_of_sorted_keys).
  cbn [bind type_dfs type_sizes type_element_ilocs rows_so_far app].
  assert (match tables_of shared (sorted_keys shared) with
          | _ :: _ => concat (tables_of shared (sorted_keys shared))
          | [] => []
          end = concat (tables_of shared (sorted_keys shared))) as ->.
  { by destruct (tables_of shared (sorted_keys shared)). }
  destruct (ExternalIdIndex_init comma_sep _) as [id_index|e]; [|done].
  cbn [bind].
  assert (ExternalIdIndex_init comma_sep (IdStr <$> sorted_keys shared)
          = Ok (mkExternalIdIndex (IdStr <$> sorted_keys shared)
                  (min_scalar_type (length (IdStr <$> sorted_keys shared))))) as ->.
  { unfold ExternalIdIndex_init, is_unique. cbv zeta.
    rewrite bool_decide_eq_true_2; [done|].
    apply NoDup_fmap_2; [|apply NoDup_sorted_keys]. by intros ?? [=]. }
  cbn [bind]. unfold to_iloc. by cbn [bind _index _dtype].
Qed.

(** The range recorded for a type name: the [k]-th name in sorted order
    owns the rows of the [k]-th table of the concatenation. *)
Lemma ranges_lookup shared (t : string) (r : range) :
  assign_ranges (sorted_keys shared) (tables_of shared (sorted_keys shared)) 0 ∅ !! t
    = Some r
  ↔ ∃ (k : nat) (df : list (ident * R)),
      sorted_keys shared !! k = Some t ∧ shared !! t = Some df ∧
      tables_of shared (sorted_keys shared) !! k = Some df ∧
      r = mkRange (offset (tables_of shared (sorted_keys shared)) k)
            (offset (tables_of shared (sorted_keys shared)) k + Z.of_nat (length df)).
Proof.
  destruct (decide (t ∈ sorted_keys shared)) as [Hin|Hnot].
  - pose proof Hin as [k Hk]%list_elem_of_lookup_1.
    apply elem_of_sorted_keys in Hin as [df Hdf].
    pose proof (tables_of_lookup shared _ _ _ Hk) as Htab.
    rewrite Hdf in Htab. simpl in Htab.
    rewrite (assign_ranges_lookup _ _ _ _ k t df)
      by (done || apply NoDup_sorted_keys).
    rewrite Z.add_0_l. split.
    + intros [= <-]. by exists k, df.
    + intros (k' & df' & Hk' & Hdf' & _ & ->).
      assert (k' = k) as -> by (eapply NoDup_lookup; eauto using NoDup_sorted_keys).
      by simplify_eq.
  - rewrite assign_ranges_not_elem by done. rewrite lookup_empty. split; [done|].
    intros (k & df & Hk & _). destruct Hnot. by eapply list_elem_of_lookup_2.
Qed.

Lemma type_range_Ok (m : gmap string range) (self : ElementData (R := R))
    (t : string) (r : range) :
  _type_element_ilocs self = m → type_range self t = Ok r ↔ m !! t = Some r.
Proof.
  intros <-. unfold type_range, dict_getitem.
  destruct (_type_element_ilocs self !! t); naive_solver.
Qed.

(** C3: a constructed store lists its type names in sorted order and gives
    each type one contiguous range of ilocs with as many ilocs as the type
    has rows; a smaller type name has its range before a larger one, the
    ranges of distinct types are disjoint, together they are exactly
    [0, len), the rows of a type keep their order inside its range, and
    [type_of_iloc] of an iloc in a type's range is that type's name. *)
Theorem type_ranges_partition shared (self : ElementData (R := R)) :
  ElementData_init comma_sep asarray shared = Ok self →
  (_index (types self) = IdStr <$> sorted_keys shared ∧
   StronglySorted String.le (sorted_keys shared) ∧
   ∀ t, t ∈ sorted_keys shared ↔ is_Some (shared !! t)) ∧
  (∀ t df, shared !! t = Some df →
     ∃ r, type_range self t = Ok r ∧
          0 ≤ start r ∧ stop r = start r + Z.of_nat (length df)) ∧
  (∀ t r, type_range self t = Ok r → is_Some (shared !! t)) ∧
  (∀ t1 t2 r1 r2,
     type_range self t1 = Ok r1 → type_range self t2 = Ok r2 →
     t1 ≠ t2 → String.le t1 t2 → stop r1 ≤ start r2) ∧
  (∀ t1 t2 r1 r2 i,
     type_range self t1 = Ok r1 → type_range self t2 = Ok r2 →
     t1 ≠ t2 → ¬ (range_contains r1 i ∧ range_contains r2 i)) ∧
  (∀ i, 0 ≤ i < ElementData_len self
        ↔ ∃ t r, type_range self t = Ok r ∧ range_contains r i) ∧
  (∀ t df r (j : nat) label row,
     shared !! t = Some df → type_range self t = Ok r →
     df !! j = Some (label, row) →
     from_iloc (ids self) [start r + Z.of_nat j] = Ok [label] ∧
     _columns self !! Z.to_nat (start r + Z.of_nat j) = Some row) ∧
  (∀ t r i,
     type_range self t = Ok r → range_contains r i →
     type_of_iloc self [i] = Ok [IdStr t]).
Proof.
  rewrite ElementData_init_unfold.
  intros (id_index & Hid & [= <-])%bind_Ok.
  apply ExternalIdIndex_init_Ok in Hid as (_ & Hindex & _).
  set (ts := sorted_keys shared) in *.
  set (tables := tables_of shared ts) in *.
  pose proof (StronglySorted_sorted_keys shared) as Hsorted. fold ts in Hsorted.
  pose proof (NoDup_sorted_keys shared) as Hnodup. fold ts in Hnodup.
  assert (Hrange : ∀ t r,
    type_range {| _id_index := id_index; _columns := (concat tables).*2;
                  _type_index := mkExternalIdIndex (IdStr <$> ts)
                    (min_scalar_type (length (IdStr <$> ts)));
                  _type_column := repeat_counts
                    (astype (min_scalar_type (length (IdStr <$> ts)))
                       (get_indexer (IdStr <$> ts) (IdStr <$> ts)))
                    (length <$> tables);
                  _type_element_ilocs := assign_ranges ts tables 0 ∅ |} t = Ok r
    ↔ ∃ (k : nat) (df : list (ident * R)),
        ts !! k = Some t ∧ shared !! t = Some df ∧ tables !! k = Some df ∧
        r = mkRange (offset tables k) (offset tables k + Z.of_nat (length df))).
  { intros t r. rewrite (type_range_Ok (assign_ranges ts tables 0 ∅)) by done.
    apply ranges_lookup. }
  assert (Horder : ∀ k1 k2 t1 t2, ts !! k1 = Some t1 → ts !! k2 = Some t2 →
            t1 ≠ t2 → String.le t1 t2 → (k1 < k2)%nat).
  { intros k1 k2 t1 t2 H1 H2 Hne Hle.
    destruct (Nat.lt_trichotomy k1 k2) as [?|[->|Hgt]]; [done|congruence|].
    destruct Hne. apply (anti_symm String.le); [done|].
    by eapply (StronglySorted_lookup_lt String.le ts k2 k1). }
  assert (Hbefore : ∀ k1 k2 df1, (k1 < k2)%nat → tables !! k1 = Some df1 →
            offset tables k1 + Z.of_nat (length df1) ≤ offset tables k2).
  { intros k1 k2 df1 Hlt H1. rewrite <- (offset_succ _ _ _ H1).
    apply offset_mono. lia. }
  split; [|split; [|split; [|split; [|split; [|split; [|split]]]]]].
  - split; [done|]. split; [done|]. intros t. apply elem_of_sorted_keys.
  - intros t df Hdf.
    assert (t ∈ ts) as [k Hk]%list_elem_of_lookup_1 by (apply elem_of_sorted_keys; eauto).
    pose proof (tables_of_lookup shared _ _ _ Hk) as Htab.
    rewrite Hdf in Htab. simpl in Htab. fold ts tables in Htab.
    eexists. split; [apply Hrange; by exists k, df|]. simpl.
    split; [apply offset_nonneg|done].
  - intros t r (k & df & _ & Hdf & _)%Hrange. eauto.
  - intros t1 t2 r1 r2 (k1 & df1 & Hk1 & _ & Ht1 & ->)%Hrange
      (k2 & df2 & Hk2 & _ & Ht2 & ->)%Hrange Hne Hle. simpl.
    apply Hbefore; [|done]. by eapply Horder.
  - intros t1 t2 r1 r2 i (k1 & df1 & Hk1 & _ & Ht1 & ->)%Hrange
      (k2 & df2 & Hk2 & _ & Ht2 & ->)%Hrange Hne [[H1 H1'] [H2 H2']]. simpl in *.
    destruct (Nat.lt_trichotomy k1 k2) as [Hlt|[->|Hgt]].
    + pose proof (Hbefore k1 k2 df1 Hlt Ht1). lia.
    + congruence.
    + pose proof (Hbefore k2 k1 df2 Hgt Ht2). lia.
  - intros i. unfold ElementData_len, len. simpl. rewrite Hindex, length_fmap. split.
    + intros (k & df & Hk & Hi)%offset_cover.
      destruct (ts !! k) as [t|] eqn:Ht.
      2:{ apply lookup_ge_None in Ht. apply lookup_lt_Some in Hk.
          unfold tables, tables_of in Hk. rewrite length_fmap in Hk. lia. }
      assert (t ∈ ts) as [df' Hdf']%elem_of_sorted_keys by (by eapply list_elem_of_lookup_2).
      pose proof (tables_of_lookup shared _ _ _ Ht) as Htab.
      rewrite Hdf' in Htab. simpl in Htab. fold ts tables in Htab.
      assert (df' = df) as -> by congruence.
      exists t. eexists. split; [apply Hrange; by exists k, df|]. done.
    + intros (t & r & (k & df & Hk & _ & Ht & ->)%Hrange & [Hlo Hhi]). simpl in *.
      pose proof (offset_nonneg tables k).
      pose proof (offset_succ _ _ _ Ht) as Hs.
      pose proof (offset_mono tables (S k) (length tables)) as Hm.
      apply lookup_lt_Some in Ht. rewrite (offset_all tables (length tables)) in Hm by lia.
      lia.
  - intros t df r j label row Hdf (k & df' & Hk & Hdf' & Ht & ->)%Hrange Hj. simpl.
    assert (df' = df) as -> by congruence.
    pose proof (lookup_lt_Some _ _ _ Hj) as Hlt.
    pose proof (concat_lookup_offset tables k j df Ht Hlt) as Hc. rewrite Hj in Hc.
    pose proof (offset_nonneg tables k).
    replace (offset tables k + Z.of_nat j)
      with (Z.of_nat (Z.to_nat (offset tables k) + j)) by lia.
    rewrite Nat2Z.id. split.
    + unfold from_iloc, ids. simpl.
      rewrite (getitem1_in_range _ _ label); [done|].
      by rewrite Hindex, list_lookup_fmap, Hc.
    + by rewrite list_lookup_fmap, Hc.
  - intros t r i (k & df & Hk & _ & Ht & ->)%Hrange [Hlo Hhi]. simpl in *.
    pose proof (offset_nonneg tables k).
    assert (∃ j : nat, i = Z.of_nat (Z.to_nat (offset tables k) + j)
                       ∧ (j < length df)%nat) as (j & -> & Hj).
    { exists (Z.to_nat (i - offset tables k)). lia. }
    unfold type_of_iloc. cbn [_type_column _type_index getitem].
    assert (astype (min_scalar_type (length (IdStr <$> ts)))
              (get_indexer (IdStr <$> ts) (IdStr <$> ts)) !! k = Some (Z.of_nat k))
      as Hcode.
    { unfold astype, get_indexer. rewrite !list_lookup_fmap, Hk. simpl. f_equal.
      rewrite (get_loc_lookup_NoDup _ k).
      - apply astype1_min_scalar_type. rewrite length_fmap. by eapply lookup_lt_Some.
      - apply NoDup_fmap_2; [by intros ?? [=]|done].
      - by rewrite list_lookup_fmap, Hk. }
    rewrite (getitem1_in_range _ _ (Z.of_nat k)).
    2:{ by apply (repeat_counts_lookup_offset _ tables k j _ df). }
    cbn [bind]. unfold from_iloc. cbn [_index getitem].
    rewrite (getitem1_in_range _ _ (IdStr t)); [done|].
    by rewrite list_lookup_fmap, Hk.
Qed.

Lemma elem_of_concat_lookup {A : Type} (ls : list (list A)) (x : A) :
  x ∈ concat ls ↔ ∃ (k : nat) (l : list A), ls !! k = Some l ∧ x ∈ l.
Proof.
  induction ls as [|l0 ls IH]; simpl.
  - split; [by intros ?%elem_of_nil | by intros (k & l & ? & _)].
  - rewrite elem_of_app, IH. split.
    + intros [H0|(k & l & Hk & Hx)]; [by exists 0%nat, l0 | by exists (S k), l].
    + intros ([|k] & l & Hk & Hx); simplify_eq/=; eauto.
Qed.

Lemma fmap_concat {A B : Type} (f : A → B) (ls : list (list A)) :
  f <$> concat ls = concat (fmap (M := list) f <$> ls).
Proof. induction ls as [|l ls IH]; [done|]. simpl. by rewrite fmap_app, IH. Qed.

Lemma occurs_twice_concat (ls : list (list ident)) (x : ident) :
  occurs_twice x (concat ls)
  ↔ (∃ (k : nat) (l : list ident), ls !! k = Some l ∧ occurs_twice x l) ∨
    (∃ (k1 k2 : nat) (l1 l2 : list ident),
       k1 ≠ k2 ∧ ls !! k1 = Some l1 ∧ ls !! k2 = Some l2 ∧ x ∈ l1 ∧ x ∈ l2).
Proof.
  induction ls as [|l0 ls IH]; simpl.
  - split; [by intros ?%occurs_twice_nil|]. by intros [(k & l & ? & _)|(k & ? & ? & ? & _ & ? & _)].
  - rewrite occurs_twice_app, IH, elem_of_concat_lookup. split.
    + intros [H0|[[(k & l & Hk & Hx)|(k1 & k2 & l1 & l2 & Hne & H1 & H2 & Hx)]
                 |[H0 (k & l & Hk & Hx)]]].
      * left. by exists 0%nat, l0.
      * left. by exists (S k), l.
      * right. exists (S k1), (S k2), l1, l2. split; [congruence|done].
      * right. by exists 0%nat, (S k), l0, l.
    + intros [([|k] & l & Hk & Hx)|([|k1] & [|k2] & l1 & l2 & Hne & H1 & H2 & Hx1 & Hx2)];
        simplify_eq/=.
      * by left.
      * right. left. left. eauto.
      * right. right. eauto.
      * right. right. eauto.
      * right. left. right. exists k1, k2, l1, l2. split; [congruence|done].
Qed.

(** C6: constructing an index raises exactly when some identifier appears
    more than once, and the error then lists the distinct identifiers that
    do; a typed store builds its index over the labels of all its tables
    concatenated, so it raises in the same way exactly when a label appears
    twice in one table or in the tables of two different types. *)
Theorem duplicate_identifiers_rejected :
  (∀ ids : list ident,
     ((∃ x, occurs_twice x ids)
      ↔ ∃ e, ExternalIdIndex_init comma_sep ids = Raise e) ∧
     (∀ e, ExternalIdIndex_init comma_sep ids = Raise e →
        ∃ dups : list ident,
          e = ValueError (duplicate_message (comma_sep dups)) ∧
          NoDup dups ∧ ∀ x, x ∈ dups ↔ occurs_twice x ids)) ∧
  (∀ shared : gmap string (DataFrame R),
     ∃ labels : list ident,
       (∀ e, ElementData_init comma_sep asarray shared = Raise e
             ↔ ExternalIdIndex_init comma_sep labels = Raise e) ∧
       (∀ x, x ∈ labels ↔ ∃ t df, shared !! t = Some df ∧ x ∈ df.*1) ∧
       (∀ x, occurs_twice x labels
             ↔ (∃ t df, shared !! t = Some df ∧ occurs_twice x df.*1) ∨
               (∃ t1 t2 df1 df2, t1 ≠ t2 ∧
                  shared !! t1 = Some df1 ∧ shared !! t2 = Some df2 ∧
                  x ∈ df1.*1 ∧ x ∈ df2.*1))).
Proof.
  split.
  - intros ids. unfold ExternalIdIndex_init, is_unique. cbv zeta.
    case_bool_decide as Hnd; simpl.
    + split.
      * split; [|by intros [e ?]]. intros Hx%not_NoDup_occurs_twice. done.
      * done.
    + split.
      * split; [eauto|]. intros _. by apply not_NoDup_occurs_twice.
      * intros e [= <-]. eexists. split; [done|]. apply duplicated_values.
  - intros shared. set (ts := sorted_keys shared). set (tables := tables_of shared ts).
    assert (Htab : ∀ k l, (fmap (M := list) fst <$> tables) !! k = Some l
              ↔ ∃ t df, ts !! k = Some t ∧ shared !! t = Some df ∧ l = df.*1).
    { intros k l. unfold tables, tables_of. rewrite !list_lookup_fmap. split.
      - destruct (ts !! k) as [t|] eqn:Hk; [|done]. simpl. intros [= <-].
        assert (t ∈ ts) as [df Hdf]%elem_of_sorted_keys
          by (by eapply list_elem_of_lookup_2).
        exists t, df. by rewrite Hdf.
      - intros (t & df & -> & Hdf & ->). simpl. by rewrite Hdf. }
    assert (Hpos : ∀ t df, shared !! t = Some df → ∃ k, ts !! k = Some t).
    { intros t df Hdf. apply list_elem_of_lookup_1, elem_of_sorted_keys. eauto. }
    exists (concat tables).*1. split; [|split].
    + intros e. rewrite ElementData_init_unfold. fold ts tables.
      destruct (ExternalIdIndex_init comma_sep _); simpl; naive_solver.
    + intros x. rewrite fmap_concat, elem_of_concat_lookup. split.
      * intros (k & l & (t & df & _ & Hdf & ->)%Htab & Hx). eauto.
      * intros (t & df & Hdf & Hx). destruct (Hpos _ _ Hdf) as [k Hk].
        exists k, (df.*1). split; [|done]. apply Htab. eauto.
    + intros x. rewrite fmap_concat, occurs_twice_concat. split.
      * intros [(k & l & (t & df & _ & Hdf & ->)%Htab & Hx)
               |(k1 & k2 & l1 & l2 & Hne & (t1 & df1 & Hk1 & Hdf1 & ->)%Htab
                 & (t2 & df2 & Hk2 & Hdf2 & ->)%Htab & Hx1 & Hx2)].
        -- left. eauto.
        -- right. exists t1, t2, df1, df2. split; [|done].
           intros ->. apply Hne. eapply NoDup_lookup; eauto using NoDup_sorted_keys.
      * intros [(t & df & Hdf & Hx)|(t1 & t2 & df1 & df2 & Hne & Hdf1 & Hdf2 & Hx1 & Hx2)].
        -- left. destruct (Hpos _ _ Hdf) as [k Hk]. exists k, (df.*1).
           split; [|done]. apply Htab. eauto.
        -- right. destruct (Hpos _ _ Hdf1) as [k1 Hk1]. destruct (Hpos _ _ Hdf2) as [k2 Hk2].
           exists k1, k2, (df1.*1), (df2.*1).
           split; [congruence|]. split; [apply Htab; eauto|].
           split; [apply Htab; eauto|done].
Qed.

(** The range that a constructed store records for a type spans as many
    ilocs as the type has rows. *)
Lemma type_range_rows shared (self : ElementData (R := R)) (t : string) (r : range)
    (df : list (ident * R)) :
  ElementData_init comma_sep asarray shared = Ok self →
  type_range self t = Ok r → shared !! t = Some df →
  0 ≤ start r ∧ stop r = start r + Z.of_nat (length df).
Proof.
  rewrite ElementData_init_unfold.
  intros (id_index & _ & [= <-])%bind_Ok Hr Hdf.
  rewrite (type_range_Ok (assign_ranges (sorted_keys shared)
             (tables_of shared (sorted_keys shared)) 0 ∅)) in Hr by done.
  apply ranges_lookup in Hr as (k & df' & _ & Hdf' & _ & ->). simpl.
  assert (df' = df) as -> by congruence.
  split; [apply offset_nonneg|done].
Qed.

Lemma type_range_within shared (self : ElementData (R := R)) (t : string) (r : range) :
  ElementData_init comma_sep asarray shared = Ok self →
  type_range self t = Ok r →
  0 ≤ start r ∧ start r ≤ stop r ∧ stop r ≤ ElementData_len self.
Proof.
  rewrite ElementData_init_unfold.
  intros (id_index & Hid & [= <-])%bind_Ok Hr.
  apply ExternalIdIndex_init_Ok in Hid as (_ & Hidx & _).
  rewrite (type_range_Ok (assign_ranges (sorted_keys shared)
             (tables_of shared (sorted_keys shared)) 0 ∅)) in Hr by done.
  apply ranges_lookup in Hr as (k & df & _ & _ & Htab & ->).
  unfold ElementData_len, len. cbn [_id_index start stop].
  rewrite Hidx, length_fmap.
  pose proof (offset_succ _ _ _ Htab) as Hsucc.
  pose proof (lookup_lt_Some _ _ _ Htab) as Hk.
  pose proof (offset_mono (tables_of shared (sorted_keys shared)) (S k)
                (length (tables_of shared (sorted_keys shared))) ltac:(lia)) as Hmono.
  rewrite (offset_all _ (length _)) in Hmono by done.
  pose proof (offset_nonneg (tables_of shared (sorted_keys shared)) k). lia.
Qed.

End typed_store_properties.

(** ** NodeData *)

Lemma foldM_unit_Ok {A : Type} (f : unit → A → result unit) (l : list A) :
  foldM f l () = Ok () → ∀ x, x ∈ l → f () x = Ok ().
Proof.
  induction l as [|y l IH]; simpl.
  - by intros _ x ?%elem_of_nil.
  - intros ([] & Hy & Hl)%bind_Ok x [->|Hx]%elem_of_cons; auto.
Qed.

Section node_store_properties.

Variable comma_sep : list ident → string.
Variable asarray : list ident → list np_scalar.

Context {R F : Type}.

Lemma embedding_lookup_valid (params : list (list F)) (ids : list Z) :
  (∀ i, i ∈ ids → 0 ≤ i < Z.of_nat (length params)) →
  ∃ rows : list (list F),
    embedding_lookup params ids = Ok rows ∧ length rows = length ids ∧
    ∀ (k : nat) (i : Z), ids !! k = Some i → rows !! k = params !! Z.to_nat i.
Proof.
  induction ids as [|i ids IH]; intros Hall.
  - by exists [].
  - destruct IH as (rows & Hrows & Hlen & Hlook).
    { intros j Hj. apply Hall. by right. }
    assert (0 ≤ i < Z.of_nat (length params)) as Hi by (apply Hall; left).
    destruct (lookup_lt_is_Some_2 params (Z.to_nat i)) as [row Hrow]; [lia|].
    exists (row :: rows). simpl.
    rewrite (proj2 (Z.leb_le _ _)) by lia.
    rewrite (proj2 (Z.ltb_lt _ _)) by lia. simpl.
    rewrite Hrow, Hrows. simpl. split; [done|]. split; [by rewrite Hlen|].
    intros [|k] j Hk; simplify_eq/=; eauto.
Qed.

Lemma embedding_lookup_invalid (params : list (list F)) (ids : list Z) :
  (∃ i, i ∈ ids ∧ ¬ (0 ≤ i < Z.of_nat (length params))) →
  embedding_lookup params ids = Raise InvalidArgumentError.
Proof.
  induction ids as [|i ids IH]; intros (j & Hj & Hbad).
  - by apply elem_of_nil in Hj.
  - simpl. destruct ((0 <=? i) && (i <? Z.of_nat (length params))) eqn:Hi; [|done].
    apply andb_true_iff in Hi as [H0%Z.leb_le H1%Z.ltb_lt].
    destruct (params !! Z.to_nat i); [|done].
    apply elem_of_cons in Hj as [->|Hj]; [lia|].
    rewrite IH; [done|]. eauto.
Qed.

(** What [features] does on a type with a range and a payload, for an
    array of a dtype that holds the ilocs of the store. *)
Lemma features_offsets (self : NodeData (R := R) (F := F)) (type_name : string)
    (r : range) (payload : list (list F)) (id_ilocs : ndarray) (n : Z) :
  _type_element_ilocs (node_element_data self) !! type_name = Some r →
  _features self !! type_name = Some payload →
  Z.of_nat (length payload) = range_len r →
  0 ≤ start r ≤ stop r → stop r ≤ n → n ≤ sys_maxsize →
  holds_ilocs (nd_dtype id_ilocs) n → array_wf id_ilocs →
  ((∃ i, i ∈ nd_values id_ilocs ∧ ¬ (0 ≤ i - start r < range_len r)) →
     features self type_name id_ilocs = Raise (ValueError "unknown IDs")) ∧
  ((∀ i, i ∈ nd_values id_ilocs → 0 ≤ i - start r < range_len r) →
     features self type_name id_ilocs
     = embedding_lookup payload ((λ i, i - start r) <$> nd_values id_ilocs)).
Proof.
  intros Hr Hpayload Hrows Hstart Hstop Hn Hdt Hwf.
  assert (range_len r = stop r - start r) as Hlen by (unfold range_len; lia).
  assert (Hoff : ∀ v, v ∈ nd_values id_ilocs →
    (0 ≤ v - start r < range_len r →
       cast (sub_result_type (nd_dtype id_ilocs) (start r)) (v - start r)
       = v - start r) ∧
    (¬ (0 ≤ v - start r < range_len r) →
       cast (sub_result_type (nd_dtype id_ilocs) (start r)) (v - start r) < 0 ∨
       ¬ (0 ≤ wrap_int64
                (cast (sub_result_type (nd_dtype id_ilocs) (start r)) (v - start r))
            < range_len r))).
  { intros v Hv.
    destruct (feature_offset (nd_dtype id_ilocs) (start r) (range_len r) n v)
      as [Hin Hout]; try done; try lia.
    unfold array_wf in Hwf. rewrite Forall_forall in Hwf. by apply Hwf. }
  unfold features. rewrite (dict_getitem_Some _ _ _ _ Hr). cbn [bind]. cbv zeta.
  rewrite (dict_getitem_Some _ _ _ _ Hpayload). cbn [bind].
  rewrite (astype_int_sub_scalar _ _ n) by (done || lia).
  cbn [bind]. unfold sub_scalar. cbn [nd_values].
  split.
  - intros (i & Hi & Hbad).
    destruct (existsb _ _) eqn:Hneg; [done|].
    rewrite embedding_lookup_invalid; [done|].
    eexists. split.
    + apply list_elem_of_fmap. eexists. split; [done|].
      apply list_elem_of_fmap. eauto.
    + destruct (Hoff i Hi) as [_ Hout].
      destruct (Hout Hbad) as [Hlt|Hout']; [|by rewrite Hrows].
      exfalso. apply not_true_iff_false in Hneg. apply Hneg, existsb_exists.
      eexists. split.
      * apply list_elem_of_In, list_elem_of_fmap. eauto.
      * by apply Z.ltb_lt.
  - intros Hall.
    assert ((λ v, cast (sub_result_type (nd_dtype id_ilocs) (start r)) (v - start r))
              <$> nd_values id_ilocs
            = (λ i, i - start r) <$> nd_values id_ilocs) as ->.
    { apply list_fmap_ext. intros k v Hk%list_elem_of_lookup_2.
      apply (Hoff v Hk), Hall, Hk. }
    assert (wrap_int64 <$> ((λ i, i - start r) <$> nd_values id_ilocs)
            = (λ i, i - start r) <$> nd_values id_ilocs) as ->.
    { rewrite <- list_fmap_compose. apply list_fmap_ext.
      intros k v Hk%list_elem_of_lookup_2. simpl.
      specialize (Hall v Hk). apply wrap_int64_small.
      unfold sys_maxsize in *. lia. }
    assert (existsb (λ i, i <? 0) ((λ i, i - start r) <$> nd_values id_ilocs) = false)
      as ->.
    { apply not_true_is_false. intros (j & Hj & Hlt)%existsb_exists.
      apply list_elem_of_In, list_elem_of_fmap in Hj as (i & -> & Hi).
      apply Z.ltb_lt in Hlt. specialize (Hall i Hi). lia. }
    destruct (embedding_lookup_valid payload ((λ i, i - start r) <$> nd_values id_ilocs))
      as (rows & -> & _); [|done].
    intros j (i & -> & Hi)%list_elem_of_fmap. specialize (Hall i Hi). lia.
Qed.


End node_store_properties.

(** ** EdgeData *)

Lemma tabulates_empty_lists {A : Type} (n : Z) :
  tabulates n (empty_lists (A := A) n) (λ _, []).
Proof.
  intros v. unfold empty_lists. case_decide as Hv.
  - apply elem_of_list_to_map_1.
    + rewrite <- list_fmap_compose. simpl. rewrite list_fmap_id. apply NoDup_seqZ.
    + apply list_elem_of_fmap. exists v. split; [done|]. apply elem_of_seqZ. lia.
  - apply not_elem_of_list_to_map_1. rewrite <- list_fmap_compose. simpl.
    rewrite list_fmap_id, elem_of_seqZ. lia.
Qed.

Lemma dict_append_tabulates {A : Type} (n : Z) (d d' : gmap Z (list A))
    (f : Z → list A) (k : Z) (x : A) :
  tabulates n d f → dict_append d k x = Ok d' →
  0 ≤ k < n ∧ tabulates n d' (λ v, if decide (v = k) then f v ++ [x] else f v).
Proof.
  intros Hd. unfold dict_append.
  intros (l & Hl%dict_getitem_Ok & [= <-])%bind_Ok.
  rewrite Hd in Hl. case_decide as Hk; [|done]. simplify_eq. split; [done|].
  intros v. destruct (decide (v = k)) as [->|Hne].
  - rewrite lookup_insert_eq. by rewrite decide_True.
  - rewrite lookup_insert_ne by done. apply Hd.
Qed.

Lemma dict_append_in_range {A : Type} (n : Z) (d : gmap Z (list A))
    (f : Z → list A) (k : Z) (x : A) :
  tabulates n d f → 0 ≤ k < n → ∃ d', dict_append d k x = Ok d'.
Proof.
  intros Hd Hk. unfold dict_append.
  rewrite (dict_getitem_Some _ _ _ (f k)); [simpl; eauto|].
  rewrite Hd. by rewrite decide_True.
Qed.

Lemma tabulates_ext {A : Type} (n : Z) (d : gmap Z (list A)) (f g : Z → list A) :
  tabulates n d f → (∀ v, f v = g v) → tabulates n d g.
Proof. intros Hd Hfg v. rewrite Hd. by rewrite Hfg. Qed.

Lemma _numpyise_id {A : Type} (d : gmap Z (list A)) : _numpyise d = d.
Proof. unfold _numpyise. apply map_fmap_id. Qed.

Section edge_store_properties.

Variable comma_sep : list ident → string.
Variable asarray : list ident → list np_scalar.

Context {W : Type}.

Implicit Types (a : adjacency W) (es : list (edge_row W)) (self : EdgeData W).

Local Ltac solve_pointwise :=
  intros v; unfold edges_into, edges_out_of, edges_at, other_end;
  rewrite filter_app, fmap_app, filter_cons, filter_nil;
  repeat (case_decide; simplify_eq/=); rewrite ?app_nil_r;
  first [done | lia | congruence | naive_solver].

Lemma edge_loop_body_adjacency (n : Z) es a a' (row : ident * edge_row W) :
  adjacency_of n es a → edge_loop_body a row = Ok a' →
  (0 ≤ SOURCE row.2 < n ∧ 0 ≤ TARGET row.2 < n) ∧ adjacency_of n (es ++ [row.2]) a'.
Proof.
  intros (Hin & Hinw & Hout & Houtw & Hund & Hundw). unfold edge_loop_body. cbv zeta.
  intros (d1 & [Ht H1]%(dict_append_tabulates n _ _ _ _ _ Hin) &
          (d2 & [_ H2]%(dict_append_tabulates n _ _ _ _ _ Hinw) &
          (d3 & [Hs H3]%(dict_append_tabulates n _ _ _ _ _ Hout) &
          (d4 & [_ H4]%(dict_append_tabulates n _ _ _ _ _ Houtw) &
          (d5 & [_ H5]%(dict_append_tabulates n _ _ _ _ _ Hund) &
          (d6 & [_ H6]%(dict_append_tabulates n _ _ _ _ _ Hundw) & Hrest
          )%bind_Ok)%bind_Ok)%bind_Ok)%bind_Ok)%bind_Ok)%bind_Ok.
  split; [done|]. destruct row as [label e]. simpl in *.
  case_decide as Hloop.
  - apply bind_Ok in Hrest
      as (d7 & [_ H7]%(dict_append_tabulates n _ _ _ _ _ H5) &
          (d8 & [_ H8]%(dict_append_tabulates n _ _ _ _ _ H6) & [= <-])%bind_Ok).
    repeat split; simpl; (eapply tabulates_ext; [eassumption|solve_pointwise]).
  - injection Hrest as <-.
    repeat split; simpl; (eapply tabulates_ext; [eassumption|solve_pointwise]).
Qed.

Lemma edge_loop_adjacency (n : Z) (rows : list (ident * edge_row W)) es a a' :
  adjacency_of n es a → foldM edge_loop_body rows a = Ok a' →
  (∀ e, e ∈ rows.*2 → 0 ≤ SOURCE e < n ∧ 0 ≤ TARGET e < n) ∧
  adjacency_of n (es ++ rows.*2) a'.
Proof.
  revert es a. induction rows as [|row rows IH]; intros es a Ha; simpl.
  - intros [= <-]. rewrite app_nil_r. split; [|done]. by intros e ?%elem_of_nil.
  - intros (a1 & [Hrow Ha1]%(edge_loop_body_adjacency n es) & Hrest)%bind_Ok; [|done].
    destruct (IH _ _ Ha1 Hrest) as [Hrows Ha']. rewrite <- app_assoc in Ha'.
    split; [|done]. intros e [->|He]%elem_of_cons; auto.
Qed.

Lemma build_adjacency_Ok (n : Z) (type_data : list (ident * edge_row W)) a :
  build_adjacency n type_data = Ok a →
  (∀ e, e ∈ type_data.*2 → 0 ≤ SOURCE e < n ∧ 0 ≤ TARGET e < n) ∧
  adjacency_of n type_data.*2 a.
Proof.
  unfold build_adjacency. intros Hfold.
  apply (edge_loop_adjacency n type_data []) in Hfold; [done|].
  repeat split; simpl; apply tabulates_empty_lists.
Qed.

(** The loop over the edges of a type raises only on an endpoint that is
    not a node iloc. *)
Lemma edge_loop_body_succeeds (n : Z) es a (row : ident * edge_row W) :
  adjacency_of n es a →
  0 ≤ SOURCE row.2 < n → 0 ≤ TARGET row.2 < n →
  ∃ a', edge_loop_body a row = Ok a'.
Proof.
  intros (Hin & Hinw & Hout & Houtw & Hund & Hundw) Hs Ht.
  unfold edge_loop_body. cbv zeta.
  destruct (dict_append_in_range n _ _ (TARGET row.2) (SOURCE row.2) Hin Ht) as [d1 ->].
  destruct (dict_append_in_range n _ _ (TARGET row.2) (WEIGHT row.2) Hinw Ht) as [d2 ->].
  destruct (dict_append_in_range n _ _ (SOURCE row.2) (TARGET row.2) Hout Hs) as [d3 ->].
  destruct (dict_append_in_range n _ _ (SOURCE row.2) (WEIGHT row.2) Houtw Hs) as [d4 ->].
  destruct (dict_append_in_range n _ _ (TARGET row.2) (SOURCE row.2) Hund Ht) as [d5 H5].
  destruct (dict_append_in_range n _ _ (TARGET row.2) (WEIGHT row.2) Hundw Ht) as [d6 H6].
  rewrite H5, H6. cbn [bind].
  apply (dict_append_tabulates n _ _ _ _ _ Hund) in H5 as [_ H5].
  apply (dict_append_tabulates n _ _ _ _ _ Hundw) in H6 as [_ H6].
  case_decide; [|eauto].
  destruct (dict_append_in_range n _ _ (SOURCE row.2) (TARGET row.2) H5 Hs) as [d7 ->].
  destruct (dict_append_in_range n _ _ (SOURCE row.2) (WEIGHT row.2) H6 Hs) as [d8 ->].
  simpl. eauto.
Qed.

Lemma build_adjacency_succeeds (n : Z) (type_data : list (ident * edge_row W)) :
  (∀ e, e ∈ type_data.*2 → 0 ≤ SOURCE e < n ∧ 0 ≤ TARGET e < n) →
  ∃ a, build_adjacency n type_data = Ok a.
Proof.
  unfold build_adjacency.
  assert (Hinit : adjacency_of n []
            (mkAdjacency (empty_lists n) (empty_lists n) (empty_lists n)
               (empty_lists n) (empty_lists n) (empty_lists (A := W) n))).
  { repeat split; simpl; apply tabulates_empty_lists. }
  revert Hinit. generalize (@nil (edge_row W)).
  generalize (mkAdjacency (empty_lists n) (empty_lists n) (empty_lists n)
                (empty_lists n) (empty_lists n) (empty_lists (A := W) n)).
  induction type_data as [|row rows IH]; intros a es Ha Hrange; simpl.
  - eauto.
  - destruct (Hrange row.2) as [Hs Ht]; [left|].
    destruct (edge_loop_body_succeeds n es a row Ha Hs Ht) as [a1 Ha1].
    rewrite Ha1. cbn [bind].
    apply (IH a1 (es ++ [row.2])).
    + by apply (edge_loop_body_adjacency n es a a1 row).
    + intros e He. apply Hrange. by right.
Qed.

Lemma type_loop_tables (shared : gmap string (DataFrame (edge_row W))) (n : Z)
    (names : list string) (s0 s : EdgeData W) :
  foldM (type_loop_body shared n) names s0 = Ok s →
  ∀ t,
    (t ∈ names →
       ∃ df a, shared !! t = Some df ∧ build_adjacency n df = Ok a ∧
         type_tables s t =
           (Some (in_dict a), Some (out_dict a), Some (undirected a),
            Some (in_weights a), Some (out_weights a), Some (und_weights a))) ∧
    (t ∉ names → type_tables s t = type_tables s0 t).
Proof.
  revert s0. induction names as [|x names IH]; intros s0; simpl.
  - intros [= <-] t. split; [by intros ?%elem_of_nil|done].
  - intros (s1 & Hbody & Hrest)%bind_Ok t.
    destruct (IH _ Hrest t) as [Hin Hout].
    unfold type_loop_body in Hbody.
    apply bind_Ok in Hbody as (df & Hdf%dict_getitem_Ok & Hbody).
    apply bind_Ok in Hbody as (a & Ha & [= <-]).
    assert (type_tables
              {| edge_element_data := edge_element_data s0; sources := sources s0;
                 targets := targets s0; weights := weights s0;
                 all_type_names := all_type_names s0;
                 _edges_in_by_type := <[x:=_numpyise (in_dict a)]> (_edges_in_by_type s0);
                 _edges_out_by_type := <[x:=_numpyise (out_dict a)]> (_edges_out_by_type s0);
                 _edges_by_type := <[x:=_numpyise (undirected a)]> (_edges_by_type s0);
                 _weights_in_by_type := <[x:=_numpyise (in_weights a)]> (_weights_in_by_type s0);
                 _weights_out_by_type := <[x:=_numpyise (out_weights a)]> (_weights_out_by_type s0);
                 _weights_by_type := <[x:=_numpyise (und_weights a)]> (_weights_by_type s0) |} t
            = if decide (x = t)
              then (Some (in_dict a), Some (out_dict a), Some (undirected a),
                    Some (in_weights a), Some (out_weights a), Some (und_weights a))
              else type_tables s0 t) as Hstep.
    { unfold type_tables. simpl. rewrite !_numpyise_id. case_decide as Hx.
      - subst. by rewrite !lookup_insert_eq.
      - by rewrite !lookup_insert_ne. }
    split.
    + intros Ht. destruct (decide (t ∈ names)) as [|Hnot]; [auto|].
      apply elem_of_cons in Ht as [->|]; [|done].
      exists df, a. rewrite (Hout Hnot), Hstep. by rewrite decide_True.
    + intros [Hne Hnot]%not_elem_of_cons.
      rewrite (Hout Hnot), Hstep. by rewrite decide_False.
Qed.


Lemma dd_getitem_lengths (adj : gmap Z (list Z)) (v : Z) :
  dd_getitem (mkDefaultdict (length <$> adj)) v = length (default [] (adj !! v)).
Proof. unfold dd_getitem. simpl. rewrite lookup_fmap. by destruct (adj !! v). Qed.

Lemma served_from_intro self (t : string) (ins outs : bool)
    (edges : gmap string (gmap Z (list Z))) (wts : gmap string (gmap Z (list W))) :
  _adj_lookup self t ins outs = dict_getitem KeyStr edges t →
  _weight_lookup self t ins outs = dict_getitem KeyStr wts t →
  served_from self t ins outs edges wts.
Proof.
  intros Hadj Hwt. unfold served_from, degrees, neighbour_ilocs, neighbour_weights.
  rewrite Hadj, Hwt. split; [|split; [|split]].
  - intros adj Hsome. rewrite (dict_getitem_Some _ _ _ _ Hsome). simpl. split; [|done].
    eexists. split; [done|]. apply dd_getitem_lengths.
  - intros w Hsome v. by rewrite (dict_getitem_Some _ _ _ _ Hsome).
  - intros Hnone. by rewrite (dict_getitem_None _ _ _ Hnone).
  - intros Hnone v. by rewrite (dict_getitem_None _ _ _ Hnone).
Qed.

(** C9: [degrees], [neighbour_ilocs] and [neighbour_weights] read one table
    chosen by the flags: the undirected one when [ins] and [outs] are both
    set, the incoming one when only [ins] is, the outgoing one when only
    [outs] is; a node without entry has degree [0]; with neither flag set
    all three raise the usage error, whatever the type name is. *)
Theorem queries_select_one_table self (type_name : string) :
  served_from self type_name true true (_edges_by_type self) (_weights_by_type self) ∧
  served_from self type_name true false
    (_edges_in_by_type self) (_weights_in_by_type self) ∧
  served_from self type_name false true
    (_edges_out_by_type self) (_weights_out_by_type self) ∧
  degrees self type_name false false = Raise usage_error ∧
  (∀ node_id, neighbour_ilocs self node_id type_name false false = Raise usage_error) ∧
  (∀ node_id, neighbour_weights self node_id type_name false false = Raise usage_error).
Proof.
  split; [by apply served_from_intro|].
  split; [by apply served_from_intro|].
  split; [by apply served_from_intro|].
  done.
Qed.

End edge_store_properties.

(* ================================================================= *)
(** * The properties on concrete inputs *)

(** C1 on the index over ["a"; "b"; "c"]: ["b"] is at iloc 1, the unknown
    ["zz"] maps to 255 with the compact dtype and to -1 without, and the
    strict call raises naming ["zz"]. *)
Lemma to_iloc_known_unknown_example :
  ExternalIdIndex_init example_comma_sep abc = Ok (mkExternalIdIndex abc uint8) ∧
  to_iloc example_asarray (mkExternalIdIndex abc uint8) [IdStr "b"; IdStr "zz"] true false
    = Ok [1; 255] ∧
  to_iloc example_asarray (mkExternalIdIndex abc uint8) [IdStr "b"; IdStr "zz"] false false
    = Ok [1; -1] ∧
  ∃ e, to_iloc example_asarray (mkExternalIdIndex abc uint8) [IdStr "b"; IdStr "zz"] true true
         = Raise e ∧
       e = KeyError (KeyItem (np_str "zz")).
Proof.
  assert (Hinit : ExternalIdIndex_init example_comma_sep abc
                  = Ok (mkExternalIdIndex abc uint8)) by reflexivity.
  assert (Hlen : Z.of_nat (length abc) ≤ sys_maxsize) by (by vm_compute).
  split; [exact Hinit|]. split; [reflexivity|]. split; [reflexivity|].
  destruct (to_iloc_known_unknown example_comma_sep example_asarray abc
              (mkExternalIdIndex abc uint8)
              [IdStr "b"; IdStr "zz"] true true Hinit Hlen)
    as (m & _ & _ & Hstrict).
  destruct Hstrict as (e & He & _ & Hkey); [reflexivity | | reflexivity |].
  - exists (IdStr "zz"). split; apply (bool_decide_unpack _); by vm_compute.
  - exists e. split; [exact He|]. rewrite Hkey. reflexivity.
Defined.

(** A strict query that mixes a string and an integer: [np.asarray] turns
    the integer into a string, and the error carries that string. *)
Example strict_to_iloc_mixed_query :
  to_iloc example_asarray (mkExternalIdIndex abc uint8) [IdStr "a"; IdInt 7] true true
  = Raise (KeyError (KeyItem (np_str "7"))).
Proof. by vm_compute. Qed.

(** C4 does not hold for the width of [n - 1]: with 256 identifiers the
    last iloc is 255, which 8 bits hold, but the index derives a 16-bit
    dtype. *)
Lemma dtype_not_minimal_for_last_iloc :
  ∃ self : ExternalIdIndex,
    ExternalIdIndex_init example_comma_sep ids_256 = Ok self ∧
    len self - 1 = 255 ∧
    iinfo_max uint8 = Some 255 ∧
    _dtype self = uint16 ∧
    itemsize_bits (_dtype self) = Some 16.
Proof.
  exists (mkExternalIdIndex ids_256 uint16). by vm_compute.
Qed.

(** C4 as amended, on the same index: 16 bits is the narrowest width that
    holds its length 256. *)
Lemma dtype_minimal_for_length_example :
  ExternalIdIndex_init example_comma_sep ids_256
    = Ok (mkExternalIdIndex ids_256 uint16) ∧
  Z.of_nat (length ids_256) ≤ sys_maxsize ∧
  ∃ w : Z, itemsize_bits uint16 = Some w ∧
    len (mkExternalIdIndex ids_256 uint16) ≤ 2 ^ w - 1 ∧
    ∀ (d' : dtype) (w' : Z),
      itemsize_bits d' = Some w' →
      len (mkExternalIdIndex ids_256 uint16) ≤ 2 ^ w' - 1 → w ≤ w'.
Proof.
  assert (Hinit : ExternalIdIndex_init example_comma_sep ids_256
                  = Ok (mkExternalIdIndex ids_256 uint16)) by (by vm_compute).
  assert (Hlen : Z.of_nat (length ids_256) ≤ sys_maxsize) by (by vm_compute).
  split; [exact Hinit|]. split; [exact Hlen|].
  exact (dtype_minimal_for_length example_comma_sep ids_256 _ Hinit Hlen).
Defined.

(** C5 does not hold for ilocs past the end: on the index over
    ["a"; "b"; "c"], [from_iloc] raises for the iloc 3 and for the compact
    sentinel 255. *)
Lemma from_iloc_raises_out_of_range :
  ExternalIdIndex_init example_comma_sep abc = Ok (mkExternalIdIndex abc uint8) ∧
  len (mkExternalIdIndex abc uint8) = 3 ∧
  from_iloc (mkExternalIdIndex abc uint8) [3] = Raise IndexError ∧
  from_iloc (mkExternalIdIndex abc uint8) [255] = Raise IndexError.
Proof. by vm_compute. Qed.

(** C5 as amended, on the same index: the iloc -1 yields the last
    identifier and the iloc 3 raises. *)
Lemma from_iloc_out_of_range_example :
  ExternalIdIndex_init example_comma_sep abc = Ok (mkExternalIdIndex abc uint8) ∧
  (∃ id : ident, from_iloc (mkExternalIdIndex abc uint8) [-1] = Ok [id] ∧
     abc !! Z.to_nat (3 + -1) = Some id) ∧
  from_iloc (mkExternalIdIndex abc uint8) [3] = Raise IndexError.
Proof.
  assert (Hinit : ExternalIdIndex_init example_comma_sep abc
                  = Ok (mkExternalIdIndex abc uint8)) by reflexivity.
  split; [exact Hinit|]. split.
  - apply (from_iloc_out_of_range example_comma_sep abc _ (-1) Hinit);
      unfold len; simpl; lia.
  - apply (from_iloc_out_of_range example_comma_sep abc _ 3 Hinit);
      unfold len; simpl; lia.
Defined.

(** C7 on the index over ["a"; "b"; "c"] and the identifier ["c"]. *)
Lemma from_iloc_to_iloc_example :
  ExternalIdIndex_init example_comma_sep abc = Ok (mkExternalIdIndex abc uint8) ∧
  ∃ ilocs : list Z,
    to_iloc example_asarray (mkExternalIdIndex abc uint8) [IdStr "c"] true false = Ok ilocs ∧
    from_iloc (mkExternalIdIndex abc uint8) ilocs = Ok [IdStr "c"].
Proof.
  assert (Hinit : ExternalIdIndex_init example_comma_sep abc
                  = Ok (mkExternalIdIndex abc uint8)) by reflexivity.
  split; [exact Hinit|].
  apply (from_iloc_to_iloc example_comma_sep example_asarray abc _ (IdStr "c") true false Hinit).
  apply (bool_decide_unpack _). by vm_compute.
Defined.

(** C10 on the index over ["a"; "b"; "c"]: the sentinel 255 is not below
    the length 3. *)
Lemma sentinel_outside_index_example :
  ExternalIdIndex_init example_comma_sep abc = Ok (mkExternalIdIndex abc uint8) ∧
  Z.of_nat (length abc) ≤ sys_maxsize ∧
  ∃ sentinel : Z,
    iinfo_max uint8 = Some sentinel ∧
    len (mkExternalIdIndex abc uint8) ≤ sentinel ∧
    is_valid (mkExternalIdIndex abc uint8) [sentinel] = [false].
Proof.
  assert (Hinit : ExternalIdIndex_init example_comma_sep abc
                  = Ok (mkExternalIdIndex abc uint8)) by reflexivity.
  assert (Hlen : Z.of_nat (length abc) ≤ sys_maxsize) by (by vm_compute).
  split; [exact Hinit|]. split; [exact Hlen|].
  destruct (sentinel_outside_index example_comma_sep example_asarray abc _ Hinit Hlen)
    as (s & Hmax & _ & _ & Hle & _ & Hvalid).
  exists s. split; [exact Hmax|]. split; [exact Hle|exact Hvalid].
Defined.

(** C3 on the store with the types ["A"] (3 rows) and ["B"] (5 rows): the
    range of ["A"] has 3 ilocs, that of ["B"] has 5 and starts where the
    one of ["A"] stops or later, and every iloc of a range has the type of
    the range. *)
Lemma type_ranges_partition_example :
  ∃ self : ElementData (R := unit),
    ElementData_init example_comma_sep example_asarray example_nodes = Ok self ∧
    ∃ rA rB : range,
      type_range self "A" = Ok rA ∧ type_range self "B" = Ok rB ∧
      stop rA = start rA + 3 ∧ stop rB = start rB + 5 ∧ stop rA ≤ start rB ∧
      (∀ i, range_contains rA i → type_of_iloc self [i] = Ok [IdStr "A"]) ∧
      (∀ i, range_contains rB i → type_of_iloc self [i] = Ok [IdStr "B"]).
Proof.
  destruct (ElementData_init example_comma_sep example_asarray example_nodes) as [self|e] eqn:Hself;
    [|by vm_compute in Hself].
  exists self. split; [reflexivity|].
  destruct (type_ranges_partition example_comma_sep example_asarray example_nodes self Hself)
    as (_ & Hrows & _ & Horder & _ & _ & _ & Htype).
  destruct (Hrows "A" [(IdStr "a0", ()); (IdStr "a1", ()); (IdStr "a2", ())])
    as (rA & HA & _ & HstopA); [by vm_compute|].
  destruct (Hrows "B" [(IdStr "b0", ()); (IdStr "b1", ()); (IdStr "b2", ());
                       (IdStr "b3", ()); (IdStr "b4", ())])
    as (rB & HB & _ & HstopB); [by vm_compute|].
  exists rA, rB. split; [exact HA|]. split; [exact HB|].
  split; [exact HstopA|]. split; [exact HstopB|]. split.
  - apply (Horder "A" "B" rA rB HA HB); [discriminate|by vm_compute].
  - split; intros i Hi; [exact (Htype "A" rA i HA Hi)|exact (Htype "B" rB i HB Hi)].
Defined.




(** The queries on the same store: the undirected degree of node 2 is 2,
    while its in-degree is 2 and its out-degree is 1. *)
Example degrees_of_node_2 :
  (self <- EdgeData_init example_comma_sep example_asarray example_edges 3 ;;
   both <- degrees self "e" true true ;;
   ins <- degrees self "e" true false ;;
   outs <- degrees self "e" false true ;;
   nbrs <- neighbour_ilocs self 2 "e" true true ;;
   Ok (dd_getitem both 2, dd_getitem ins 2, dd_getitem outs 2, dd_getitem ins 7, nbrs))
  = Ok (2%nat, 2%nat, 1%nat, 0%nat, [1; 2]).
Proof. by vm_compute. Qed.

(** C6 on concrete inputs: the error lists each repeated identifier once,
    in order of first repetition; a label shared by two types is rejected
    like a label repeated inside one type. *)
Example duplicate_error_in_index :
  ExternalIdIndex_init example_comma_sep
    [IdStr "a"; IdStr "b"; IdInt 3; IdStr "a"; IdInt 3; IdStr "a"]
  = Raise (ValueError
      "expected IDs to appear once, found some that appeared more: 'a', 3").
Proof. by vm_compute. Qed.

Example duplicate_error_across_types :
  ElementData_init example_comma_sep example_asarray
    (R := unit) {[ "A" := [(IdStr "x", ()); (IdStr "y", ())];
                   "B" := [(IdStr "z", ()); (IdStr "x", ())] ]}
  = Raise (ValueError
      "expected IDs to appear once, found some that appeared more: 'x'").
Proof. by vm_compute. Qed.

(* ================================================================= *)
(** * Further properties of the identifier index *)

Section index_further.

Variable comma_sep : list ident → string.
Variable asarray : list ident → list np_scalar.

Lemma contains_external_true (self : ExternalIdIndex) (id : ident) :
  contains_external self id = true ↔ id ∈ _index self.
Proof. unfold contains_external. apply bool_decide_eq_true. Qed.

(** X1: on a constructed index, [is_valid] applied to the result of a
    non-strict [to_iloc] flags exactly the identifiers that the index
    contains, with the compact dtype and without it. *)
Theorem is_valid_flags_known (ids0 : list ident) (self : ExternalIdIndex)
    (ids : list ident) (smaller_type : bool) :
  ExternalIdIndex_init comma_sep ids0 = Ok self →
  Z.of_nat (length ids0) ≤ sys_maxsize →
  ∃ ilocs : list Z,
    to_iloc asarray self ids smaller_type false = Ok ilocs ∧
    is_valid self ilocs = contains_external self <$> ids.
Proof.
  intros Hinit Hlen.
  pose proof (ExternalIdIndex_init_Ok _ _ _ Hinit) as (Hnd & Hidx & Hdt).
  destruct (min_scalar_type_unsigned (length ids0) Hlen) as [w Hw].
  pose proof (min_scalar_type_fits _ _ Hw) as Hfit. rewrite <- Hdt in Hw.
  rewrite to_iloc_non_strict. eexists. split; [done|].
  unfold is_valid. rewrite <- list_fmap_compose.
  apply list_fmap_ext. intros _ id _. simpl.
  destruct (decide (id ∈ _index self)) as [Hin|Hnot].
  - rewrite (proj2 (contains_external_true self id)) by done.
    destruct (get_loc_elem _ _ Hin) as (i & Hi & Hl). apply lookup_lt_Some in Hl.
    rewrite Hi.
    assert ((if smaller_type then astype1 (_dtype self) (Z.of_nat i) else Z.of_nat i)
            = Z.of_nat i) as ->.
    { destruct smaller_type; [|done]. by eapply astype1_get_loc_known. }
    unfold len. apply andb_true_iff. split; [apply Z.leb_le|apply Z.ltb_lt]; lia.
  - assert (contains_external self id = false) as ->.
    { apply not_true_iff_false. by rewrite contains_external_true. }
    rewrite (get_loc_not_elem _ _ Hnot). unfold len. rewrite Hidx.
    destruct smaller_type.
    + rewrite (astype1_minus_one _ w) by done.
      rewrite (proj2 (Z.ltb_ge _ _)) by lia. apply andb_false_r.
    + done.
Qed.

Lemma is_valid_all_true (self : ExternalIdIndex) (ilocs : list Z) :
  forallb (λ b, b) (is_valid self ilocs) = true
  ↔ Forall (λ i, 0 ≤ i < len self) ilocs.
Proof.
  unfold is_valid. induction ilocs as [|i ilocs IH]; simpl.
  - split; [constructor|done].
  - rewrite andb_true_iff, IH, Forall_cons, andb_true_iff, Z.leb_le, Z.ltb_lt.
    naive_solver.
Qed.

Lemma is_valid_mask_filter {A : Type} (self : ExternalIdIndex) (values : list A)
    (ilocs : list Z) :
  length values = length ilocs →
  getitem_mask values (negb <$> is_valid self ilocs)
  = entries_out_of_range (len self) values ilocs.
Proof.
  unfold is_valid, entries_out_of_range. revert ilocs.
  induction values as [|q values IH]; intros [|i ilocs] Hlen;
    simplify_eq/=; [done|].
  rewrite (IH ilocs) by done.
  destruct ((0 <=? i) && (i <? len self)) eqn:Hi; simpl.
  - apply andb_true_iff in Hi as [?%Z.leb_le ?%Z.ltb_lt].
    by rewrite filter_cons_False by (simpl; intros Hn; apply Hn; lia).
  - rewrite filter_cons_True; [done|]. simpl. intros [H0 H1].
    apply not_true_iff_false in Hi. apply Hi, andb_true_iff.
    split; [by apply Z.leb_le|by apply Z.ltb_lt].
Qed.

(** X2: [require_valid] returns exactly when every iloc lies in
    [0, len); otherwise it raises a [KeyError] that carries the entries of
    [np.asarray(query_ids)] at the positions of the ilocs out of range: the
    entry itself when there is one, the array of them when there are
    more. *)
Theorem require_valid_names_missing (self : ExternalIdIndex)
    (query_ids : list ident) (ilocs : list Z) :
  length (asarray query_ids) = length ilocs →
  (Forall (λ i, 0 ≤ i < len self) ilocs → require_valid asarray self query_ids ilocs = Ok ()) ∧
  (¬ Forall (λ i, 0 ≤ i < len self) ilocs →
     ∃ missing : list np_scalar,
       missing = entries_out_of_range (len self) (asarray query_ids) ilocs ∧
       missing ≠ [] ∧
       require_valid asarray self query_ids ilocs
       = Raise (KeyError match missing with [m] => KeyItem m | _ => KeyArray missing end)).
Proof.
  intros Hlen. unfold require_valid. cbv zeta.
  rewrite is_valid_mask_filter by done. split.
  - intros Hall%is_valid_all_true. by rewrite Hall.
  - intros Hnot. eexists. split; [done|].
    destruct (forallb _ _) eqn:Hall.
    { by apply is_valid_all_true in Hall. }
    simpl. split; [|by destruct (entries_out_of_range _ _ _) as [|? [|? ?]]].
    unfold entries_out_of_range.
    intros Hnil. apply fmap_nil_inv in Hnil.
    apply Hnot, Forall_forall. intros i Hi.
    apply list_elem_of_lookup_1 in Hi as [k Hk].
    destruct (lookup_lt_is_Some_2 (asarray query_ids) k) as [q Hq].
    { rewrite Hlen. by eapply lookup_lt_Some. }
    destruct (decide (0 ≤ i < len self)) as [|Hbad]; [done|].
    assert ((q, i) ∈ filter (λ p, ¬ (0 ≤ p.2 < len self))
                       (zip (asarray query_ids) ilocs)) as Hin.
    { apply list_elem_of_filter. split; [done|].
      apply list_elem_of_lookup_2 with k. by apply lookup_zip_Some. }
    rewrite Hnil in Hin. by apply elem_of_nil in Hin.
Qed.

(** X3: on a constructed index, the identifiers of the index itself are
    mapped to [0, 1, ..., len - 1]: the position of an identifier in the
    sequence is its iloc. *)
Theorem to_iloc_of_index (ids0 : list ident) (self : ExternalIdIndex)
    (smaller_type strict : bool) :
  ExternalIdIndex_init comma_sep ids0 = Ok self →
  to_iloc asarray self (_index self) smaller_type strict = Ok (seqZ 0 (len self)).
Proof.
  intros Hinit.
  pose proof (ExternalIdIndex_init_Ok _ _ _ Hinit) as (Hnd & Hidx & Hdt).
  rewrite <- Hidx in Hnd.
  assert (to_iloc asarray self (_index self) smaller_type strict
          = to_iloc asarray self (_index self) smaller_type false) as ->.
  { destruct strict; [|done]. rewrite (to_iloc_strict comma_sep asarray).
    destruct (filter _ _) as [|m rest] eqn:Hf; [done|].
    assert (m ∈ filter (λ id, id ∉ _index self) (_index self)) as Hm
      by (rewrite Hf; left).
    apply list_elem_of_filter in Hm as [Hm1 Hm2]. by destruct Hm1. }
  rewrite to_iloc_non_strict. f_equal. apply list_eq. intros k.
  rewrite list_lookup_fmap. unfold len.
  destruct (_index self !! k) as [id|] eqn:Hk; simpl.
  - pose proof (lookup_lt_Some _ _ _ Hk) as Hlt.
    rewrite lookup_seqZ_lt by lia. f_equal.
    rewrite (get_loc_lookup_NoDup _ k) by done. rewrite Z.add_0_l.
    destruct smaller_type; [|done]. by eapply astype1_get_loc_known.
  - apply lookup_ge_None in Hk. symmetry. apply lookup_seqZ_ge. lia.
Qed.

Lemma from_iloc_valid (self : ExternalIdIndex) (ilocs : list Z) :
  Forall (λ i, 0 ≤ i < len self) ilocs →
  ∃ ids : list ident,
    from_iloc self ilocs = Ok ids ∧
    Forall2 (λ i id, _index self !! Z.to_nat i = Some id) ilocs ids.
Proof.
  unfold from_iloc, len. induction 1 as [|i ilocs Hi _ (ids & Hids & Hall)].
  - by exists [].
  - destruct (lookup_lt_is_Some_2 (_index self) (Z.to_nat i)) as [id Hid]; [lia|].
    exists (id :: ids). simpl. rewrite <- (Z2Nat.id i) at 1 by lia.
    rewrite (getitem1_in_range _ _ id Hid). simpl. rewrite Hids. simpl.
    split; [done|]. by constructor.
Qed.

(** X4: on a constructed index, [to_iloc] undoes [from_iloc] on every
    array of ilocs in [0, len). *)
Theorem to_iloc_from_iloc (ids0 : list ident) (self : ExternalIdIndex)
    (ilocs : list Z) (smaller_type strict : bool) :
  ExternalIdIndex_init comma_sep ids0 = Ok self →
  Forall (λ i, 0 ≤ i < len self) ilocs →
  ∃ ids : list ident,
    from_iloc self ilocs = Ok ids ∧
    to_iloc asarray self ids smaller_type strict = Ok ilocs.
Proof.
  intros Hinit Hvalid.
  pose proof (ExternalIdIndex_init_Ok _ _ _ Hinit) as (Hnd & Hidx & Hdt).
  rewrite <- Hidx in Hnd.
  destruct (from_iloc_valid self ilocs Hvalid) as (ids & Hfrom & Hall).
  exists ids. split; [done|].
  assert (to_iloc asarray self ids smaller_type strict = to_iloc asarray self ids smaller_type false)
    as ->.
  { destruct strict; [|done]. rewrite (to_iloc_strict comma_sep asarray).
    destruct (filter _ _) as [|m rest] eqn:Hf; [done|].
    assert (m ∈ filter (λ id, id ∉ _index self) ids) as Hm by (rewrite Hf; left).
    apply list_elem_of_filter in Hm as [Hm1 Hm2].
    apply list_elem_of_lookup_1 in Hm2 as [k Hk].
    destruct (Forall2_lookup_r _ _ _ _ _ Hall Hk) as (i & _ & Hi).
    destruct Hm1. by eapply list_elem_of_lookup_2. }
  rewrite to_iloc_non_strict. f_equal.
  clear Hfrom. induction Hall as [|i id ilocs ids Hi Hall IH]; [done|].
  apply Forall_cons in Hvalid as [Hr Hvalid]. rewrite fmap_cons, (IH Hvalid). f_equal.
  rewrite (get_loc_lookup_NoDup _ (Z.to_nat i)) by done. rewrite Z2Nat.id by lia.
  destruct smaller_type; [|done].
  rewrite <- (Z2Nat.id i) by lia.
  eapply astype1_get_loc_known; [done|]. unfold len in Hr. lia.
Qed.

End index_further.

(* ================================================================= *)
(** * Further properties of the typed element store *)

Lemma length_repeat_counts {A B : Type} (codes : list B) (tables : list (list A)) :
  length codes = length tables →
  length (repeat_counts codes (length <$> tables)) = length (concat tables).
Proof.
  revert tables. induction codes as [|c codes IH]; intros [|df tables] Hlen;
    simplify_eq/=; [done|].
  by rewrite !length_app, length_replicate, IH.
Qed.

Lemma length_concat_sum {A : Type} (tables : list (list A)) :
  length (concat tables) = sum_list_with length tables.
Proof. induction tables as [|df tables IH]; simpl; [done|]. by rewrite length_app, IH. Qed.

Section typed_store_further.

Variable comma_sep : list ident → string.
Variable asarray : list ident → list np_scalar.

Context {R : Type}.

Implicit Types (shared : gmap string (DataFrame R)) (self : ElementData (R := R)).

(** The fields of a constructed store, in terms of the tables taken in
    the order of the sorted type names. *)
Lemma ElementData_init_fields shared self :
  ElementData_init comma_sep asarray shared = Ok self →
  NoDup (_index (_id_index self)) ∧
  _index (_id_index self) = (concat (tables_of shared (sorted_keys shared))).*1 ∧
  _dtype (_id_index self) = min_scalar_type (length (_index (_id_index self))) ∧
  _columns self = (concat (tables_of shared (sorted_keys shared))).*2 ∧
  _type_index self =
    mkExternalIdIndex (IdStr <$> sorted_keys shared)
      (min_scalar_type (length (IdStr <$> sorted_keys shared))) ∧
  _type_column self =
    repeat_counts
      (astype (min_scalar_type (length (IdStr <$> sorted_keys shared)))
         (get_indexer (IdStr <$> sorted_keys shared) (IdStr <$> sorted_keys shared)))
      (length <$> tables_of shared (sorted_keys shared)) ∧
  _type_element_ilocs self =
    assign_ranges (sorted_keys shared) (tables_of shared (sorted_keys shared)) 0 ∅.
Proof.
  rewrite ElementData_init_unfold.
  intros (id_index & Hid & [= <-])%bind_Ok.
  apply ExternalIdIndex_init_Ok in Hid as (Hnd & Hidx & Hdt). simpl.
  rewrite Hidx. by rewrite <- Hidx at 2.
Qed.

Lemma tables_of_sorted_keys_Permutation shared :
  tables_of shared (sorted_keys shared) ≡ₚ (map_to_list shared).*2.
Proof.
  unfold tables_of. rewrite sorted_keys_Permutation, <- list_fmap_compose.
  assert (((λ t, default [] (shared !! t)) ∘ fst) <$> map_to_list shared
          = (map_to_list shared).*2) as ->; [|done].
  apply list_fmap_ext.
  intros _ [t df] Hin%list_elem_of_lookup_2%elem_of_map_to_list. simpl. by rewrite Hin.
Qed.

Lemma tables_of_sorted_keys_lookup shared (k : nat) (df : list (ident * R)) :
  tables_of shared (sorted_keys shared) !! k = Some df ↔
  ∃ t, sorted_keys shared !! k = Some t ∧ shared !! t = Some df.
Proof.
  unfold tables_of. rewrite list_lookup_fmap. split.
  - destruct (sorted_keys shared !! k) as [t|] eqn:Hk; [|done]. simpl. intros [= <-].
    assert (t ∈ sorted_keys shared) as [df Hdf]%elem_of_sorted_keys
      by (by eapply list_elem_of_lookup_2).
    exists t. by rewrite Hdf.
  - intros (t & -> & Hdf). simpl. by rewrite Hdf.
Qed.

Lemma type_position shared (t : string) (df : list (ident * R)) :
  shared !! t = Some df →
  ∃ k : nat, sorted_keys shared !! k = Some t ∧
    tables_of shared (sorted_keys shared) !! k = Some df.
Proof.
  intros Hdf.
  assert (t ∈ sorted_keys shared) as [k Hk]%list_elem_of_lookup_1
    by (apply elem_of_sorted_keys; eauto).
  exists k. split; [done|]. apply tables_of_sorted_keys_lookup. eauto.
Qed.

(** X5: the length of a constructed store is the number of rows of all its
    tables together, and the store contains an identifier exactly when it
    labels a row of the table of some type. *)
Theorem store_length_and_membership shared self :
  ElementData_init comma_sep asarray shared = Ok self →
  ElementData_len self
    = Z.of_nat (sum_list_with (λ kv, length kv.2) (map_to_list shared)) ∧
  ∀ item : ident,
    ElementData_contains self item = true
    ↔ ∃ t df, shared !! t = Some df ∧ item ∈ df.*1.
Proof.
  intros (_ & Hidx & _)%ElementData_init_fields. split.
  - unfold ElementData_len, len. rewrite Hidx, length_fmap, length_concat_sum.
    rewrite tables_of_sorted_keys_Permutation. f_equal.
    induction (map_to_list shared) as [|kv l IH]; [done|].
    rewrite fmap_cons. simpl. f_equal. apply IH.
  - intros item. unfold ElementData_contains.
    rewrite contains_external_true, Hidx, fmap_concat, elem_of_concat_lookup. split.
    + intros (k & l & Hk & Hitem). rewrite list_lookup_fmap in Hk.
      destruct (tables_of shared (sorted_keys shared) !! k) as [df|] eqn:Hdf;
        simplify_eq/=.
      apply tables_of_sorted_keys_lookup in Hdf as (t & _ & Hdf). eauto.
    + intros (t & df & Hdf & Hitem).
      destruct (type_position shared t df Hdf) as (k & _ & Hk).
      exists k, (df.*1). by rewrite list_lookup_fmap, Hk.
Qed.

Lemma to_iloc_at (self : ExternalIdIndex) (n : nat) (id : ident)
    (smaller_type strict : bool) :
  NoDup (_index self) →
  _dtype self = min_scalar_type (length (_index self)) →
  _index self !! n = Some id →
  to_iloc asarray self [id] smaller_type strict = Ok [Z.of_nat n].
Proof.
  intros Hnd Hdt Hn.
  assert (to_iloc asarray self [id] smaller_type strict = to_iloc asarray self [id] smaller_type false)
    as ->.
  { destruct strict; [|done]. rewrite (to_iloc_strict comma_sep asarray).
    rewrite filter_cons_False, filter_nil; [done|].
    intros Hnot. apply Hnot. by eapply list_elem_of_lookup_2. }
  rewrite to_iloc_non_strict. simpl. rewrite (get_loc_lookup_NoDup _ n) by done.
  destruct smaller_type; [|done]. rewrite Hdt, astype1_min_scalar_type; [done|].
  by eapply lookup_lt_Some.
Qed.

Lemma type_range_position shared self (t : string) (r : range) :
  ElementData_init comma_sep asarray shared = Ok self →
  type_range self t = Ok r
  ↔ ∃ (k : nat) (df : list (ident * R)),
      sorted_keys shared !! k = Some t ∧ shared !! t = Some df ∧
      tables_of shared (sorted_keys shared) !! k = Some df ∧
      r = mkRange (offset (tables_of shared (sorted_keys shared)) k)
            (offset (tables_of shared (sorted_keys shared)) k + Z.of_nat (length df)).
Proof.
  intros (_ & _ & _ & _ & _ & _ & Hranges)%ElementData_init_fields.
  rewrite (type_range_Ok _ _ _ _ Hranges). apply ranges_lookup.
Qed.

Lemma type_index_fields shared self :
  ElementData_init comma_sep asarray shared = Ok self →
  NoDup (_index (_type_index self)) ∧
  _index (_type_index self) = IdStr <$> sorted_keys shared ∧
  _dtype (_type_index self) = min_scalar_type (length (_index (_type_index self))).
Proof.
  intros (_ & _ & _ & _ & -> & _)%ElementData_init_fields. simpl.
  split; [|done]. apply NoDup_fmap_2; [by intros ?? [=]|apply NoDup_sorted_keys].
Qed.

Lemma type_column_at shared self (k j : nat) (t : string) (df : list (ident * R)) :
  ElementData_init comma_sep asarray shared = Ok self →
  sorted_keys shared !! k = Some t →
  tables_of shared (sorted_keys shared) !! k = Some df →
  (j < length df)%nat →
  _type_column self
    !! (Z.to_nat (offset (tables_of shared (sorted_keys shared)) k) + j)%nat
  = Some (Z.of_nat k).
Proof.
  intros (_ & _ & _ & _ & _ & -> & _)%ElementData_init_fields Hk Hdf Hj.
  apply (repeat_counts_lookup_offset _ _ k j _ df); [|done..].
  unfold astype, get_indexer. rewrite !list_lookup_fmap, Hk. simpl. f_equal.
  rewrite (get_loc_lookup_NoDup _ k).
  - apply astype1_min_scalar_type. rewrite length_fmap. by eapply lookup_lt_Some.
  - apply NoDup_fmap_2; [by intros ?? [=]|apply NoDup_sorted_keys].
  - by rewrite list_lookup_fmap, Hk.
Qed.

Lemma length_type_column shared self :
  ElementData_init comma_sep asarray shared = Ok self →
  Z.of_nat (length (_type_column self)) = ElementData_len self.
Proof.
  intros (_ & Hidx & _ & _ & _ & -> & _)%ElementData_init_fields.
  unfold ElementData_len, len. rewrite Hidx, (length_fmap fst). f_equal.
  apply length_repeat_counts.
  unfold astype, get_indexer, tables_of. by rewrite !length_fmap.
Qed.

Lemma type_of_iloc_at shared self (k j : nat) (t : string) (df : list (ident * R)) :
  ElementData_init comma_sep asarray shared = Ok self →
  sorted_keys shared !! k = Some t →
  tables_of shared (sorted_keys shared) !! k = Some df →
  (j < length df)%nat →
  type_of_iloc self
    [Z.of_nat (Z.to_nat (offset (tables_of shared (sorted_keys shared)) k) + j)]
  = Ok [IdStr t].
Proof.
  intros Hinit Hk Hdf Hj. unfold type_of_iloc. cbn [getitem].
  rewrite (getitem1_in_range _ _ (Z.of_nat k))
    by exact (type_column_at shared self k j t df Hinit Hk Hdf Hj).
  cbn [bind]. unfold from_iloc. cbn [getitem].
  destruct (type_index_fields _ _ Hinit) as (_ & -> & _).
  rewrite (getitem1_in_range _ _ (IdStr t)); [done|].
  by rewrite list_lookup_fmap, Hk.
Qed.

(** X6: in a constructed store, [type_ilocs] has one entry per element,
    the index [types] holds exactly the type names of the input, and the
    entry of [type_ilocs] at any iloc of a type's range is the iloc of the
    type's name in [types]. *)
Theorem type_ilocs_are_type_codes shared self :
  ElementData_init comma_sep asarray shared = Ok self →
  Z.of_nat (length (type_ilocs self)) = ElementData_len self ∧
  len (types self) = Z.of_nat (size shared) ∧
  (∀ t, contains_external (types self) (IdStr t) = true ↔ is_Some (shared !! t)) ∧
  ∀ t r i (smaller_type strict : bool),
    type_range self t = Ok r → range_contains r i →
    ∃ code : Z,
      to_iloc asarray (types self) [IdStr t] smaller_type strict = Ok [code] ∧
      type_ilocs self !! Z.to_nat i = Some code.
Proof.
  intros Hinit. destruct (type_index_fields _ _ Hinit) as (Hnd & Hidx & Hdt).
  split; [by apply (length_type_column shared)|]. split; [|split].
  - unfold types, len. rewrite Hidx, length_fmap, sorted_keys_Permutation, length_fmap.
    by rewrite length_map_to_list.
  - intros t. unfold types. rewrite contains_external_true, Hidx.
    rewrite <- elem_of_sorted_keys. split.
    + by intros (t' & [= <-] & Hin)%list_elem_of_fmap.
    + intros Hin. apply list_elem_of_fmap. eauto.
  - intros t r i smaller_type strict
      (k & df & Hk & _ & Hdf & ->)%(type_range_position _ _ _ _ Hinit) [Hlo Hhi].
    simpl in *. exists (Z.of_nat k). split.
    + apply to_iloc_at; [done..|]. unfold types. by rewrite Hidx, list_lookup_fmap, Hk.
    + pose proof (offset_nonneg (tables_of shared (sorted_keys shared)) k).
      replace (Z.to_nat i)
        with (Z.to_nat (offset (tables_of shared (sorted_keys shared)) k)
              + Z.to_nat (i - offset (tables_of shared (sorted_keys shared)) k))%nat
        by lia.
      apply (type_column_at shared self k _ t df Hinit Hk Hdf). lia.
Qed.

Lemma getitem1_wrap {A : Type} (a : list A) (i : Z) :
  - Z.of_nat (length a) ≤ i < 0 →
  getitem1 a i = getitem1 a (Z.of_nat (length a) + i).
Proof.
  intros Hi. unfold getitem1. cbv zeta.
  rewrite (proj2 (Z.ltb_lt i 0)) by lia.
  rewrite (proj2 (Z.ltb_ge (Z.of_nat (length a) + i) 0)) by lia.
  by rewrite (Z.add_comm i).
Qed.

(** X7: in a constructed store, [type_of_iloc] raises [IndexError] for an
    iloc at or past the length of the store or below its negation; an iloc
    in [-len, 0) counts from the end, as [len + iloc] does. *)
Theorem type_of_iloc_bounds shared self (i : Z) :
  ElementData_init comma_sep asarray shared = Ok self →
  (i < - ElementData_len self ∨ ElementData_len self ≤ i →
     type_of_iloc self [i] = Raise IndexError) ∧
  (- ElementData_len self ≤ i < 0 →
     type_of_iloc self [i] = type_of_iloc self [ElementData_len self + i]).
Proof.
  intros Hlen%(length_type_column shared). rewrite <- Hlen. unfold type_of_iloc.
  cbn [getitem]. split.
  - intros Hi. by rewrite getitem1_out_of_bounds.
  - intros Hi. by rewrite getitem1_wrap.
Qed.

(** X8: in a constructed store, the iloc that [ids] gives to the label of
    a row is an iloc whose type, by [type_of_iloc], is the type of the
    table that holds the row. *)
Theorem type_of_label shared self (t : string) (df : list (ident * R))
    (label : ident) (smaller_type strict : bool) :
  ElementData_init comma_sep asarray shared = Ok self →
  shared !! t = Some df →
  label ∈ df.*1 →
  ∃ i : Z,
    to_iloc asarray (ids self) [label] smaller_type strict = Ok [i] ∧
    0 ≤ i < ElementData_len self ∧
    type_of_iloc self [i] = Ok [IdStr t].
Proof.
  intros Hinit Hdf ([label' row] & -> & [j Hj]%list_elem_of_lookup_1)%list_elem_of_fmap.
  simpl. destruct (type_position shared t df Hdf) as (k & Hk & Htab).
  pose proof (lookup_lt_Some _ _ _ Hj) as Hlt.
  pose proof (ElementData_init_fields _ _ Hinit) as (Hnd & Hidx & Hdt & _).
  set (n := (Z.to_nat (offset (tables_of shared (sorted_keys shared)) k) + j)%nat).
  assert (_index (_id_index self) !! n = Some label') as Hn.
  { rewrite Hidx, list_lookup_fmap. unfold n.
    by rewrite (concat_lookup_offset _ k j df), Hj. }
  exists (Z.of_nat n). split; [by apply to_iloc_at|]. split.
  - apply lookup_lt_Some in Hn. unfold ElementData_len, len. lia.
  - exact (type_of_iloc_at shared self k j t df Hinit Hk Htab Hlt).
Qed.

End typed_store_further.

(* ================================================================= *)
(** * Further properties of the node store *)

Lemma foldM_unit_Ok_iff {A : Type} (f : unit → A → result unit) (l : list A) :
  foldM f l () = Ok () ↔ ∀ x, x ∈ l → f () x = Ok ().
Proof.
  split; [apply foldM_unit_Ok|].
  induction l as [|y l IH]; intros Hall; simpl; [done|].
  rewrite (Hall y) by left. simpl. apply IH. intros x Hx. apply Hall. by right.
Qed.

Section node_store_further.

Variable comma_sep : list ident → string.
Variable asarray : list ident → list np_scalar.

Context {R F : Type}.

Implicit Types (shared : gmap string (DataFrame R)) (feats : gmap string (Tensor F))
  (self : NodeData (R := R) (F := F)).

Lemma check_features_Ok (base : ElementData (R := R)) (key : string)
    (data : list (list F)) :
  check_features base () (key, data) = Ok ()
  ↔ ∃ r, _type_element_ilocs base !! key = Some r ∧
         Z.of_nat (length data) = range_len r.
Proof.
  unfold check_features. destruct (_type_element_ilocs base !! key) as [r|] eqn:Hr.
  - rewrite (dict_getitem_Some _ _ _ _ Hr). cbn [bind]. case_decide; naive_solver.
  - rewrite (dict_getitem_None _ _ _ Hr). cbn [bind]. naive_solver.
Qed.

Lemma NodeData_init_Ok shared feats self :
  NodeData_init comma_sep asarray shared feats = Ok self ↔
  ElementData_init comma_sep asarray shared = Ok (node_element_data self) ∧
  _features self = feats ∧
  ∀ key data, feats !! key = Some data →
    check_features (node_element_data self) () (key, data) = Ok ().
Proof.
  unfold NodeData_init. split.
  - intros (base & Hbase & ([] & Hcheck & [= <-])%bind_Ok)%bind_Ok. simpl.
    split; [done|]. split; [done|]. intros key data Hdata.
    apply (foldM_unit_Ok _ _ Hcheck (key, data)). by apply elem_of_map_to_list.
  - intros (Hbase & Hfeats & Hall). rewrite Hbase. cbn [bind].
    rewrite (proj2 (foldM_unit_Ok_iff _ _)).
    + cbn [bind]. destruct self. simpl in *. by subst.
    + intros [key data] Hin%elem_of_map_to_list. by apply Hall.
Qed.

(** X9: constructing a node store succeeds exactly when the typed store of
    the rows can be constructed and every entry of the feature mapping
    belongs to a type of the rows and has as many feature rows as the type
    has rows; the store then holds the feature mapping it was given and
    the typed store of the rows. *)
Theorem NodeData_init_succeeds_iff shared feats :
  ((∃ self, NodeData_init comma_sep asarray shared feats = Ok self)
   ↔ (∃ base, ElementData_init comma_sep asarray shared = Ok base) ∧
     ∀ key data, feats !! key = Some data →
       ∃ df, shared !! key = Some df ∧ length data = length df) ∧
  (∀ self, NodeData_init comma_sep asarray shared feats = Ok self →
     _features self = feats ∧
     ElementData_init comma_sep asarray shared = Ok (node_element_data self)).
Proof.
  assert (Hcheck : ∀ (base : ElementData (R := R)) key (data : list (list F)),
    ElementData_init comma_sep asarray shared = Ok base →
    check_features base () (key, data) = Ok ()
    ↔ ∃ df, shared !! key = Some df ∧ length data = length df).
  { intros base key data Hbase. rewrite check_features_Ok. split.
    - intros (r & Hr & Hrows).
      apply (type_range_Ok _ base) in Hr; [|done].
      pose proof Hr as (k & df & _ & Hdf & _)%(type_range_position comma_sep asarray _ _ _ _ Hbase).
      destruct (type_range_rows comma_sep asarray shared base key r df Hbase Hr Hdf) as [_ Hstop].
      exists df. split; [done|]. unfold range_len in Hrows. lia.
    - intros (df & Hdf & Hrows).
      destruct (type_position shared key df Hdf) as (k & Hk & Htab).
      eexists. split.
      + apply (type_range_Ok _ base); [done|].
        apply (type_range_position comma_sep asarray _ _ _ _ Hbase). by exists k, df.
      + unfold range_len. simpl. lia. }
  split; [split|].
  - intros [self (Hbase & _ & Hall)%NodeData_init_Ok]. split; [eauto|].
    intros key data Hdata. apply (Hcheck _ _ _ Hbase). by apply Hall.
  - intros [[base Hbase] Hall]. exists (mkNodeData base feats).
    apply NodeData_init_Ok. simpl. split; [done|]. split; [done|].
    intros key data Hdata. apply (Hcheck _ _ _ Hbase). by apply Hall.
  - by intros self (Hbase & Hfeats & _)%NodeData_init_Ok.
Qed.

(** X10: [features] on a type name that has no range raises [KeyError]
    naming it. On a type that has a range, starting in [0, sys.maxsize],
    but no feature payload: for an array of unsigned integers the
    subtraction wraps around, no offset is negative, and the call raises
    [KeyError] naming the type, whatever the ilocs are; for an array of
    64-bit signed integers the call raises "unknown IDs" when an iloc is
    below the start of the range by at most [2^63], and raises [KeyError]
    naming the type otherwise, also for an empty selection. *)
Theorem features_missing_type self (type_name : string) (id_ilocs : ndarray) :
  (_type_element_ilocs (node_element_data self) !! type_name = None →
     features self type_name id_ilocs = Raise (KeyError (KeyStr type_name))) ∧
  (∀ r, _type_element_ilocs (node_element_data self) !! type_name = Some r →
     _features self !! type_name = None →
     0 ≤ start r ≤ sys_maxsize →
     (∀ d, nd_dtype id_ilocs = compact d → is_Some (itemsize_bits d) →
        features self type_name id_ilocs = Raise (KeyError (KeyStr type_name))) ∧
     (nd_dtype id_ilocs = intp → array_wf id_ilocs →
        ((∃ i, i ∈ nd_values id_ilocs ∧ - 2 ^ 63 ≤ i - start r < 0) →
           features self type_name id_ilocs = Raise (ValueError "unknown IDs")) ∧
        ((∀ i, i ∈ nd_values id_ilocs → ¬ (- 2 ^ 63 ≤ i - start r < 0)) →
           features self type_name id_ilocs = Raise (KeyError (KeyStr type_name))))).
Proof.
  unfold features. split.
  - intros Hnone. by rewrite (dict_getitem_None _ _ _ Hnone).
  - intros r Hr Hnone Hstart. rewrite (dict_getitem_Some _ _ _ _ Hr).
    cbn [bind]. cbv zeta.
    rewrite (dict_getitem_None _ _ _ Hnone). cbn [bind].
    unfold sub_scalar. cbn [nd_values]. split.
    + intros d -> Hd. cbn [sub_result_type].
      destruct (promote_types_unsigned d (min_scalar_type (Z.to_nat (start r))) Hd)
        as (w & Hw & Hpos).
      { apply min_scalar_type_unsigned. rewrite Z2Nat.id; lia. }
      assert (existsb (λ i, i <? 0)
                ((λ v, cast (compact (promote_types d
                                        (min_scalar_type (Z.to_nat (start r)))))
                         (v - start r)) <$> nd_values id_ilocs) = false) as ->; [|done].
      apply not_true_is_false. intros (j & Hj & Hlt)%existsb_exists.
      apply list_elem_of_In, list_elem_of_fmap in Hj as (i & -> & Hi).
      apply Z.ltb_lt in Hlt. cbn [cast] in Hlt. unfold astype1 in Hlt.
      rewrite Hw in Hlt. pose proof (Z.mod_pos_bound (i - start r) (2 ^ w) Hpos). lia.
    + intros Hdt Hwf. unfold array_wf in Hwf. rewrite Hdt in *.
      cbn [sub_result_type cast] in *. rewrite Forall_forall in Hwf.
      unfold sys_maxsize in Hstart. split.
      * intros (i & Hi & Hlt).
        assert (existsb (λ i, i <? 0)
                  ((λ v, wrap_int64 (v - start r)) <$> nd_values id_ilocs) = true) as ->;
          [|done].
        apply existsb_exists. exists (wrap_int64 (i - start r)). split.
        -- apply list_elem_of_In, list_elem_of_fmap. eauto.
        -- apply Z.ltb_lt. rewrite wrap_int64_small; lia.
      * intros Hall.
        assert (existsb (λ i, i <? 0)
                  ((λ v, wrap_int64 (v - start r)) <$> nd_values id_ilocs) = false) as ->;
          [|done].
        apply not_true_is_false. intros (j & Hj & Hlt)%existsb_exists.
        apply list_elem_of_In, list_elem_of_fmap in Hj as (i & -> & Hi).
        apply Z.ltb_lt in Hlt. specialize (Hall i Hi).
        pose proof (Hwf i Hi) as Hi'.
        pose proof (wrap_int64_range i) as Hrange. rewrite Hi' in Hrange.
        destruct (decide (i - start r < 0)).
        -- rewrite wrap_int64_below in Hlt by lia. lia.
        -- rewrite wrap_int64_small in Hlt by lia. lia.
Qed.

Lemma embedding_lookup_all (params : list (list F)) :
  embedding_lookup params (seqZ 0 (Z.of_nat (length params))) = Ok params.
Proof.
  destruct (embedding_lookup_valid params (seqZ 0 (Z.of_nat (length params))))
    as (rows & -> & Hlen & Hlook).
  { intros i Hi%elem_of_seqZ. lia. }
  f_equal. rewrite length_seqZ, Nat2Z.id in Hlen. apply list_eq. intros k.
  destruct (decide (k < length params)%nat) as [Hk|Hk].
  - rewrite (Hlook k (Z.of_nat k)); [by rewrite Nat2Z.id|].
    rewrite lookup_seqZ_lt by lia. f_equal; lia.
  - rewrite !lookup_ge_None_2 by lia. done.
Qed.

(** X11: in a constructed node store of at most [sys.maxsize] elements,
    asking [features] for all the ilocs of the range of a type, in order,
    in an array of a dtype that holds the ilocs of the store, returns the
    feature payload that was given for the type. *)
Theorem features_of_whole_range shared feats self (type_name : string) (r : range)
    (payload : list (list F)) (dt : iloc_dtype) :
  NodeData_init comma_sep asarray shared feats = Ok self →
  ElementData_len (node_element_data self) ≤ sys_maxsize →
  holds_ilocs dt (ElementData_len (node_element_data self)) →
  type_range (node_element_data self) type_name = Ok r →
  feats !! type_name = Some payload →
  features self type_name (mkArray dt (seqZ (start r) (range_len r))) = Ok payload.
Proof.
  intros (Hbase & Hfeats & Hall)%NodeData_init_Ok Hmax Hdt Hr Hpayload.
  pose proof (Hall _ _ Hpayload) as (r' & Hr' & Hrows)%check_features_Ok.
  destruct (type_range_within comma_sep asarray shared _ type_name r Hbase Hr)
    as (Hstart & Hle & Hstop).
  unfold type_range in Hr. pose proof Hr as Hr2%dict_getitem_Ok.
  assert (r' = r) as -> by congruence.
  assert (range_len r = stop r - start r) as Hlen by (unfold range_len; lia).
  rewrite <- Hfeats in Hpayload.
  destruct (features_offsets self type_name r payload
              (mkArray dt (seqZ (start r) (range_len r)))
              (ElementData_len (node_element_data self)) Hr2 Hpayload Hrows
              (conj Hstart Hle) Hstop Hmax Hdt) as [_ Hgood].
  { apply Forall_forall. intros v Hv%elem_of_seqZ.
    apply (cast_holds _ (ElementData_len (node_element_data self))); [done|lia]. }
  rewrite Hgood by (intros i Hi%elem_of_seqZ; lia). cbn [nd_values].
  assert ((λ i, i - start r) <$> seqZ (start r) (range_len r)
          = seqZ 0 (Z.of_nat (length payload))) as ->.
  { rewrite Hrows. apply list_eq. intros k. rewrite list_lookup_fmap.
    destruct (decide (Z.of_nat k < range_len r)) as [Hk|Hk].
    - rewrite !lookup_seqZ_lt by done. simpl. f_equal. lia.
    - rewrite !lookup_seqZ_ge by lia. done. }
  apply embedding_lookup_all.
Qed.

End node_store_further.

(* ================================================================= *)
(** * Further properties of the edge store *)

Lemma dict_append_out_of_range {A : Type} (n : Z) (d : gmap Z (list A))
    (f : Z → list A) (k : Z) (x : A) :
  tabulates n d f → ¬ (0 ≤ k < n) → dict_append d k x = Raise (KeyError (KeyInt k)).
Proof.
  intros Hd Hk. unfold dict_append. rewrite dict_getitem_None; [done|].
  rewrite Hd. by rewrite decide_False.
Qed.

Section edge_store_further.

Variable comma_sep : list ident → string.
Variable asarray : list ident → list np_scalar.

Context {W : Type}.

Implicit Types (a : adjacency W) (es : list (edge_row W)) (self : EdgeData W)
  (shared : gmap string (DataFrame (edge_row W))).

(** The loop body raises on the target first, then on the source. *)
Lemma edge_loop_body_raises (n : Z) es a (row : ident * edge_row W) :
  adjacency_of n es a →
  ¬ (0 ≤ SOURCE row.2 < n ∧ 0 ≤ TARGET row.2 < n) →
  edge_loop_body a row =
    Raise (KeyError (KeyInt (if decide (0 ≤ TARGET row.2 < n)
                             then SOURCE row.2 else TARGET row.2))).
Proof.
  intros (Hin & Hinw & Hout & Houtw & Hund & Hundw) Hbad.
  unfold edge_loop_body. cbv zeta.
  destruct (decide (0 ≤ TARGET row.2 < n)) as [Ht|Ht].
  - assert (¬ (0 ≤ SOURCE row.2 < n)) as Hs by (intros Hs; apply Hbad; split; assumption).
    destruct (dict_append_in_range n _ _ (TARGET row.2) (SOURCE row.2) Hin Ht) as [d1 ->].
    destruct (dict_append_in_range n _ _ (TARGET row.2) (WEIGHT row.2) Hinw Ht) as [d2 ->].
    cbn [bind]. by rewrite (dict_append_out_of_range n _ _ _ _ Hout Hs).
  - by rewrite (dict_append_out_of_range n _ _ _ _ Hin Ht).
Qed.

Lemma edge_loop_raises (n : Z) (rows : list (ident * edge_row W)) es a :
  adjacency_of n es a →
  ¬ (∀ e, e ∈ rows.*2 → 0 ≤ SOURCE e < n ∧ 0 ≤ TARGET e < n) →
  ∃ e k, e ∈ rows.*2 ∧ (k = SOURCE e ∨ k = TARGET e) ∧ ¬ (0 ≤ k < n) ∧
    foldM edge_loop_body rows a = Raise (KeyError (KeyInt k)).
Proof.
  revert es a. induction rows as [|row rows IH]; intros es a Ha Hbad.
  - destruct Hbad. by intros e ?%elem_of_nil.
  - simpl.
    destruct (decide (0 ≤ SOURCE row.2 < n ∧ 0 ≤ TARGET row.2 < n)) as [[Hs Ht]|Hrow].
    + destruct (edge_loop_body_succeeds n es a row Ha Hs Ht) as [a1 Ha1].
      rewrite Ha1. cbn [bind].
      destruct (IH (es ++ [row.2]) a1) as (e & k & He & Hk & Hout & ->).
      * by apply (edge_loop_body_adjacency n es a a1 row).
      * intros Hall. apply Hbad. intros e [->|He]%elem_of_cons; auto.
      * exists e, k. split; [by right|done].
    + rewrite (edge_loop_body_raises n es a row Ha Hrow). cbn [bind].
      exists row.2. eexists. split; [left|]. split; [|split; [|done]].
      * case_decide; auto.
      * case_decide as Ht; [|done]. intros Hs. apply Hrow; split; assumption.
Qed.

Lemma adjacency_of_empty (n : Z) :
  adjacency_of n []
    (mkAdjacency (empty_lists n) (empty_lists n) (empty_lists n)
       (empty_lists n) (empty_lists n) (empty_lists (A := W) n)).
Proof. repeat split; simpl; apply tabulates_empty_lists. Qed.

Lemma build_adjacency_raises (n : Z) (type_data : list (ident * edge_row W)) :
  ¬ (∀ e, e ∈ type_data.*2 → 0 ≤ SOURCE e < n ∧ 0 ≤ TARGET e < n) →
  ∃ e k, e ∈ type_data.*2 ∧ (k = SOURCE e ∨ k = TARGET e) ∧ ¬ (0 ≤ k < n) ∧
    build_adjacency n type_data = Raise (KeyError (KeyInt k)).
Proof. apply (edge_loop_raises n type_data []), adjacency_of_empty. Qed.

Lemma endpoints_in_range_dec (n : Z) (type_data : list (ident * edge_row W)) :
  (∀ e, e ∈ type_data.*2 → 0 ≤ SOURCE e < n ∧ 0 ≤ TARGET e < n) ∨
  ¬ (∀ e, e ∈ type_data.*2 → 0 ≤ SOURCE e < n ∧ 0 ≤ TARGET e < n).
Proof.
  destruct (decide (Forall (λ e, 0 ≤ SOURCE e < n ∧ 0 ≤ TARGET e < n) type_data.*2))
    as [Hall|Hnot]; rewrite Forall_forall in *; auto.
Qed.

Lemma type_loop_fields shared (n : Z) (names : list string) (s0 s : EdgeData W) :
  foldM (type_loop_body shared n) names s0 = Ok s →
  edge_element_data s = edge_element_data s0 ∧ sources s = sources s0 ∧
  targets s = targets s0 ∧ weights s = weights s0 ∧
  all_type_names s = all_type_names s0.
Proof.
  revert s0. induction names as [|x names IH]; intros s0; simpl.
  - by intros [= <-].
  - intros (s1 & Hbody & Hrest)%bind_Ok.
    destruct (IH _ Hrest) as (-> & -> & -> & -> & ->).
    unfold type_loop_body in Hbody.
    apply bind_Ok in Hbody as (df & _ & Hbody).
    by apply bind_Ok in Hbody as (a & _ & [= <-]).
Qed.

Lemma type_loop_runs shared (n : Z) (names : list string) (s0 : EdgeData W) :
  (∀ t, t ∈ names → ∃ df, shared !! t = Some df ∧
     ∀ e, e ∈ df.*2 → 0 ≤ SOURCE e < n ∧ 0 ≤ TARGET e < n) →
  ∃ s, foldM (type_loop_body shared n) names s0 = Ok s.
Proof.
  revert s0. induction names as [|x names IH]; intros s0 Hall; simpl; [eauto|].
  destruct (Hall x) as (df & Hdf & Hrange); [left|].
  destruct (build_adjacency_succeeds n df Hrange) as [a Ha].
  unfold type_loop_body at 1. rewrite (dict_getitem_Some _ _ _ _ Hdf). cbn [bind].
  rewrite Ha. cbn [bind]. apply IH. intros t Ht. apply Hall. by right.
Qed.

Lemma type_loop_raises shared (n : Z) (names : list string) (s0 : EdgeData W)
    (e : exception) :
  (∀ t, t ∈ names → is_Some (shared !! t)) →
  foldM (type_loop_body shared n) names s0 = Raise e →
  ∃ t df row k, shared !! t = Some df ∧ row ∈ df.*2 ∧
    (k = SOURCE row ∨ k = TARGET row) ∧ ¬ (0 ≤ k < n) ∧ e = KeyError (KeyInt k).
Proof.
  revert s0. induction names as [|x names IH]; intros s0 Hdom; simpl; [done|].
  destruct (Hdom x) as [df Hdf]; [left|].
  unfold type_loop_body at 1. rewrite (dict_getitem_Some _ _ _ _ Hdf). cbn [bind].
  destruct (endpoints_in_range_dec n df) as [Hrange|Hbad].
  - destruct (build_adjacency_succeeds n df Hrange) as [a ->]. cbn [bind].
    apply IH. intros t Ht. apply Hdom. by right.
  - destruct (build_adjacency_raises n df Hbad) as (row & k & Hrow & Hk & Hout & ->).
    cbn [bind]. intros [= <-]. by exists x, df, row, k.
Qed.

(** X12: constructing an edge store succeeds exactly when the typed store
    of the rows can be constructed and both ends of every edge are node
    ilocs in [0, num_nodes); when the typed store can be constructed and
    the construction still raises, it raises a [KeyError] that carries an
    end of some edge that is not such an iloc. *)
Theorem EdgeData_init_succeeds_iff shared (num_nodes : Z) :
  ((∃ self, EdgeData_init comma_sep asarray shared num_nodes = Ok self)
   ↔ (∃ base, ElementData_init comma_sep asarray shared = Ok base) ∧
     ∀ t df e, shared !! t = Some df → e ∈ df.*2 →
       0 ≤ SOURCE e < num_nodes ∧ 0 ≤ TARGET e < num_nodes) ∧
  (∀ base err, ElementData_init comma_sep asarray shared = Ok base →
     EdgeData_init comma_sep asarray shared num_nodes = Raise err →
     ∃ t df e k, shared !! t = Some df ∧ e ∈ df.*2 ∧
       (k = SOURCE e ∨ k = TARGET e) ∧ ¬ (0 ≤ k < num_nodes) ∧
       err = KeyError (KeyInt k)).
Proof.
  unfold EdgeData_init. split; [split|].
  - intros [self (base & Hbase & Hloop)%bind_Ok]. split; [eauto|].
    intros t df e Hdf He. cbn [all_type_names] in Hloop.
    destruct (type_loop_tables _ _ _ _ _ Hloop t) as [Hin _].
    destruct Hin as (df' & a & Hdf' & Ha & _); [apply elem_of_sorted_keys; eauto|].
    assert (df' = df) as -> by congruence.
    by apply build_adjacency_Ok in Ha as [Hrange _]; apply Hrange.
  - intros [[base Hbase] Hall]. rewrite Hbase. cbn [bind all_type_names].
    apply type_loop_runs. intros t [df Hdf]%elem_of_sorted_keys. exists df. eauto.
  - intros base err Hbase. rewrite Hbase. cbn [bind all_type_names].
    apply type_loop_raises. by intros t ?%elem_of_sorted_keys.
Qed.

Lemma EdgeData_init_Ok shared (num_nodes : Z) self :
  EdgeData_init comma_sep asarray shared num_nodes = Ok self →
  ElementData_init comma_sep asarray shared = Ok (edge_element_data self) ∧
  sources self = SOURCE <$> _columns (edge_element_data self) ∧
  targets self = TARGET <$> _columns (edge_element_data self) ∧
  weights self = WEIGHT <$> _columns (edge_element_data self) ∧
  all_type_names self = sorted_keys shared.
Proof.
  unfold EdgeData_init. intros (base & Hbase & Hloop)%bind_Ok.
  cbn [all_type_names] in Hloop.
  by apply type_loop_fields in Hloop as (-> & -> & -> & -> & ->).
Qed.

Lemma built_tables shared (num_nodes : Z) self (t : string)
    (df : list (ident * edge_row W)) :
  EdgeData_init comma_sep asarray shared num_nodes = Ok self →
  shared !! t = Some df →
  ∃ a, adjacency_of num_nodes df.*2 a ∧
    (∀ e, e ∈ df.*2 → 0 ≤ SOURCE e < num_nodes ∧ 0 ≤ TARGET e < num_nodes) ∧
    type_tables self t =
      (Some (in_dict a), Some (out_dict a), Some (undirected a),
       Some (in_weights a), Some (out_weights a), Some (und_weights a)).
Proof.
  unfold EdgeData_init. intros (base & _ & Hloop)%bind_Ok Hdf.
  cbn [all_type_names] in Hloop.
  destruct (type_loop_tables _ _ _ _ _ Hloop t) as [Hin _].
  destruct Hin as (df' & a & Hdf' & Ha & Htab); [apply elem_of_sorted_keys; eauto|].
  assert (df' = df) as -> by congruence.
  apply build_adjacency_Ok in Ha as [Hrange Ha]. by exists a.
Qed.

Lemma built_tables_unknown shared (num_nodes : Z) self (t : string) :
  EdgeData_init comma_sep asarray shared num_nodes = Ok self →
  shared !! t = None →
  type_tables self t = (None, None, None, None, None, None).
Proof.
  unfold EdgeData_init. intros (base & _ & Hloop)%bind_Ok Hnone.
  cbn [all_type_names] in Hloop.
  destruct (type_loop_tables _ _ _ _ _ Hloop t) as [_ Hout].
  rewrite Hout.
  - unfold type_tables. simpl. by rewrite !lookup_empty.
  - rewrite elem_of_sorted_keys, Hnone. by intros [? ?].
Qed.

(** What the two look-ups return on a built store. *)
Lemma lookups_on_built shared (num_nodes : Z) self (t : string)
    (df : list (ident * edge_row W)) (ins outs : bool) :
  EdgeData_init comma_sep asarray shared num_nodes = Ok self →
  shared !! t = Some df →
  ins || outs = true →
  ∃ (adj : gmap Z (list Z)) (wadj : gmap Z (list W)),
    _adj_lookup self t ins outs = Ok adj ∧
    _weight_lookup self t ins outs = Ok wadj ∧
    tabulates num_nodes adj
      (λ v, selected_end ins outs v <$> selected_edges ins outs v df.*2) ∧
    tabulates num_nodes wadj (λ v, WEIGHT <$> selected_edges ins outs v df.*2).
Proof.
  intros Hinit Hdf Hflags.
  destruct (built_tables _ _ _ _ _ Hinit Hdf)
    as (a & (Hin & Hinw & Hout & Houtw & Hund & Hundw) & _ & Htab).
  unfold type_tables in Htab. simplify_eq.
  unfold _adj_lookup, _weight_lookup, selected_end, selected_edges.
  destruct ins, outs; simplify_eq/=.
  - exists (undirected a), (und_weights a).
    rewrite !dict_getitem_Ok. split_and!; assumption.
  - exists (in_dict a), (in_weights a).
    rewrite !dict_getitem_Ok. split_and!; assumption.
  - exists (out_dict a), (out_weights a).
    rewrite !dict_getitem_Ok. split_and!; assumption.
Qed.



(** X14: in a built edge store, the three queries on a type name that is
    not a type of the input raise [KeyError] carrying the name, whenever
    at least one flag is set. *)
Theorem queries_on_unknown_type shared (num_nodes : Z) self (type_name : string)
    (ins outs : bool) (node_id : Z) :
  EdgeData_init comma_sep asarray shared num_nodes = Ok self →
  shared !! type_name = None →
  ins || outs = true →
  degrees self type_name ins outs = Raise (KeyError (KeyStr type_name)) ∧
  neighbour_ilocs self node_id type_name ins outs = Raise (KeyError (KeyStr type_name)) ∧
  neighbour_weights self node_id type_name ins outs
    = Raise (KeyError (KeyStr type_name)).
Proof.
  intros Hinit Hnone Hflags.
  pose proof (built_tables_unknown _ _ _ _ Hinit Hnone) as Htab.
  unfold type_tables in Htab. simplify_eq.
  unfold degrees, neighbour_ilocs, neighbour_weights, _adj_lookup, _weight_lookup.
  destruct ins, outs; simplify_eq/=;
    repeat (rewrite dict_getitem_None by assumption); done.
Qed.

Lemma incident_count (v : Z) es :
  (length (edges_at v es) + length (loops_at v es)
   = length (edges_into v es) + length (edges_out_of v es))%nat.
Proof.
  unfold edges_at, loops_at, edges_into, edges_out_of.
  induction es as [|e es IH]; [done|].
  rewrite !filter_cons. repeat case_decide; simpl; try lia; naive_solver.
Qed.

Lemma loops_at_out_of_range (n v : Z) es :
  (∀ e, e ∈ es → 0 ≤ SOURCE e < n ∧ 0 ≤ TARGET e < n) →
  ¬ (0 ≤ v < n) → loops_at v es = [].
Proof.
  intros Hrange Hv. destruct (loops_at v es) as [|e l] eqn:Hl; [done|].
  assert (e ∈ loops_at v es) as [[Hs _] He]%list_elem_of_filter by (rewrite Hl; left).
  destruct (Hrange e He) as [? _]. lia.
Qed.

(** X15: in a built edge store, for every type and every node, the degree
    in the undirected view plus the number of self-loops at the node is
    the in-degree plus the out-degree: the undirected view counts every
    edge at a node once, where the two directed views together count a
    self-loop twice. *)
Theorem undirected_degree shared (num_nodes : Z) self (type_name : string)
    (type_data : list (ident * edge_row W)) :
  EdgeData_init comma_sep asarray shared num_nodes = Ok self →
  shared !! type_name = Some type_data →
  ∃ both ins outs : defaultdict_int,
    degrees self type_name true true = Ok both ∧
    degrees self type_name true false = Ok ins ∧
    degrees self type_name false true = Ok outs ∧
    ∀ v, (dd_getitem both v + length (loops_at v type_data.*2)
          = dd_getitem ins v + dd_getitem outs v)%nat.
Proof.
  intros Hinit Hdata.
  destruct (lookups_on_built _ _ _ _ _ true true Hinit Hdata eq_refl)
    as (und & _ & Hund & _ & Tund & _).
  destruct (lookups_on_built _ _ _ _ _ true false Hinit Hdata eq_refl)
    as (adj_in & _ & Hadj_in & _ & Tin & _).
  destruct (lookups_on_built _ _ _ _ _ false true Hinit Hdata eq_refl)
    as (adj_out & _ & Hadj_out & _ & Tout & _).
  destruct (built_tables _ _ _ _ _ Hinit Hdata) as (_ & _ & Hrange & _).
  unfold degrees. rewrite Hund, Hadj_in, Hadj_out. cbn [bind].
  do 3 eexists. split; [done|]. split; [done|]. split; [done|].
  intros v. rewrite !dd_getitem_lengths, (Tund v), (Tin v), (Tout v).
  unfold selected_edges, selected_end. simpl. case_decide as Hv; simpl.
  - rewrite !length_fmap. apply incident_count.
  - by rewrite (loops_at_out_of_range num_nodes v _ Hrange Hv).
Qed.





(** X17: in a built edge store, the cached columns [sources], [targets]
    and [weights] are indexed by edge iloc: at the iloc that [ids] gives to
    the label of an edge they hold the source, the target and the weight
    of that edge. *)
Theorem edge_columns_by_iloc shared (num_nodes : Z) self (type_name : string)
    (type_data : list (ident * edge_row W)) (label : ident) (e : edge_row W)
    (smaller_type strict : bool) :
  EdgeData_init comma_sep asarray shared num_nodes = Ok self →
  shared !! type_name = Some type_data →
  (label, e) ∈ type_data →
  ∃ i : Z,
    to_iloc asarray (ids (edge_element_data self)) [label] smaller_type strict = Ok [i] ∧
    0 ≤ i ∧
    sources self !! Z.to_nat i = Some (SOURCE e) ∧
    targets self !! Z.to_nat i = Some (TARGET e) ∧
    weights self !! Z.to_nat i = Some (WEIGHT e).
Proof.
  intros (Hbase & -> & -> & -> & _)%EdgeData_init_Ok Hdata
    [j Hj]%list_elem_of_lookup_1.
  destruct (type_position shared type_name type_data Hdata) as (k & Hk & Htab).
  pose proof (lookup_lt_Some _ _ _ Hj) as Hlt.
  pose proof (ElementData_init_fields comma_sep asarray _ _ Hbase)
    as (Hnd & Hidx & Hdt & Hcols & _).
  pose proof (concat_lookup_offset _ k j type_data Htab Hlt) as Hrow.
  rewrite Hj in Hrow.
  exists (Z.of_nat (Z.to_nat (offset (tables_of shared (sorted_keys shared)) k) + j)).
  split; [|split; [lia|]].
  - apply (to_iloc_at comma_sep asarray); [done..|]. unfold ids.
    by rewrite Hidx, list_lookup_fmap, Hrow.
  - rewrite Nat2Z.id, Hcols, !list_lookup_fmap, Hrow. done.
Qed.

End edge_store_further.

(* ================================================================= *)
(** * The further properties on concrete inputs *)

(** X1 on the index over ["a"; "b"; "c"]: of ["b"] and ["zz"] only the
    first is flagged valid. *)
Lemma is_valid_flags_known_example :
  ExternalIdIndex_init example_comma_sep abc = Ok (mkExternalIdIndex abc uint8) ∧
  ∃ ilocs : list Z,
    to_iloc example_asarray (mkExternalIdIndex abc uint8) [IdStr "b"; IdStr "zz"] true false
      = Ok ilocs ∧
    is_valid (mkExternalIdIndex abc uint8) ilocs = [true; false].
Proof.
  assert (Hinit : ExternalIdIndex_init example_comma_sep abc
                  = Ok (mkExternalIdIndex abc uint8)) by reflexivity.
  assert (Hlen : Z.of_nat (length abc) ≤ sys_maxsize) by (by vm_compute).
  split; [exact Hinit|].
  destruct (is_valid_flags_known example_comma_sep example_asarray abc _ [IdStr "b"; IdStr "zz"] true
              Hinit Hlen) as (ilocs & Hilocs & Hvalid).
  exists ilocs. split; [exact Hilocs|]. rewrite Hvalid. by vm_compute.
Defined.

(** X2 on the same index: of the ilocs 0, -1 and 5 the last two are out of
    range, and the error carries the entries of the array of the queried
    identifiers at their positions; the query mixes strings and an
    integer, which the array holds as a string. *)
Lemma require_valid_names_missing_example :
  require_valid example_asarray (mkExternalIdIndex abc uint8)
    [IdStr "a"; IdInt 7; IdStr "y"] [0; -1; 5]
  = Raise (KeyError (KeyArray [np_str "7"; np_str "y"])) ∧
  require_valid example_asarray (mkExternalIdIndex abc uint8) [IdStr "c"; IdStr "a"] [2; 0] = Ok ().
Proof.
  split.
  - destruct (require_valid_names_missing example_asarray (mkExternalIdIndex abc uint8)
                [IdStr "a"; IdInt 7; IdStr "y"] [0; -1; 5] eq_refl) as [_ Hraise].
    destruct Hraise as (missing & -> & _ & Hraise); [|exact Hraise].
    apply (bool_decide_unpack _). by vm_compute.
  - apply (require_valid_names_missing example_asarray (mkExternalIdIndex abc uint8)
             [IdStr "c"; IdStr "a"] [2; 0] eq_refl).
    apply (bool_decide_unpack _). by vm_compute.
Defined.

(** X3 on the same index. *)
Lemma to_iloc_of_index_example :
  ExternalIdIndex_init example_comma_sep abc = Ok (mkExternalIdIndex abc uint8) ∧
  to_iloc example_asarray (mkExternalIdIndex abc uint8) abc true true = Ok [0; 1; 2].
Proof.
  assert (Hinit : ExternalIdIndex_init example_comma_sep abc
                  = Ok (mkExternalIdIndex abc uint8)) by reflexivity.
  split; [exact Hinit|].
  exact (to_iloc_of_index example_comma_sep example_asarray abc _ true true Hinit).
Defined.

(** X4 on the same index and the ilocs 2 and 0. *)
Lemma to_iloc_from_iloc_example :
  ExternalIdIndex_init example_comma_sep abc = Ok (mkExternalIdIndex abc uint8) ∧
  ∃ ids : list ident,
    from_iloc (mkExternalIdIndex abc uint8) [2; 0] = Ok ids ∧
    to_iloc example_asarray (mkExternalIdIndex abc uint8) ids true false = Ok [2; 0].
Proof.
  assert (Hinit : ExternalIdIndex_init example_comma_sep abc
                  = Ok (mkExternalIdIndex abc uint8)) by reflexivity.
  split; [exact Hinit|].
  apply (to_iloc_from_iloc example_comma_sep example_asarray abc _ [2; 0] true false Hinit).
  apply (bool_decide_unpack _). by vm_compute.
Defined.

(** X5 on the store with the types ["A"] (3 rows) and ["B"] (5 rows): it
    has length 8 and contains the label ["b3"]. *)
Lemma store_length_and_membership_example :
  ∃ self : ElementData (R := unit),
    ElementData_init example_comma_sep example_asarray example_nodes = Ok self ∧
    ElementData_len self = 8 ∧
    ElementData_contains self (IdStr "b3") = true.
Proof.
  destruct (ElementData_init example_comma_sep example_asarray example_nodes) as [self|e] eqn:Hself;
    [|by vm_compute in Hself].
  exists self. split; [reflexivity|].
  destruct (store_length_and_membership example_comma_sep example_asarray example_nodes self Hself)
    as [Hlen Hcontains].
  split; [rewrite Hlen; by vm_compute|].
  apply Hcontains.
  exists "B", [(IdStr "b0", ()); (IdStr "b1", ()); (IdStr "b2", ());
               (IdStr "b3", ()); (IdStr "b4", ())].
  split; [by vm_compute|]. apply (bool_decide_unpack _). by vm_compute.
Defined.

(** X6 on the same store: there are two type names, and the entry of
    [type_ilocs] at the iloc 4, which belongs to ["B"], is the iloc of
    ["B"] among the type names. *)
Lemma type_ilocs_are_type_codes_example :
  ∃ self : ElementData (R := unit),
    ElementData_init example_comma_sep example_asarray example_nodes = Ok self ∧
    len (types self) = 2 ∧
    ∃ code : Z,
      to_iloc example_asarray (types self) [IdStr "B"] true false = Ok [code] ∧
      type_ilocs self !! 4%nat = Some code.
Proof.
  destruct (ElementData_init example_comma_sep example_asarray example_nodes) as [self|e] eqn:Hself;
    [|by vm_compute in Hself].
  assert (HB : type_range self "B" = Ok (mkRange 3 8)).
  { vm_compute in Hself. injection Hself as <-. by vm_compute. }
  exists self. split; [reflexivity|].
  destruct (type_ilocs_are_type_codes example_comma_sep example_asarray example_nodes self Hself)
    as (_ & Hlen & _ & Hcodes).
  split; [rewrite Hlen; by vm_compute|].
  apply (Hcodes "B" (mkRange 3 8) 4 true false HB). by vm_compute.
Defined.

(** X7 on the same store: the iloc 8, its length, is out of bounds. *)
Lemma type_of_iloc_bounds_example :
  ∃ self : ElementData (R := unit),
    ElementData_init example_comma_sep example_asarray example_nodes = Ok self ∧
    type_of_iloc self [ElementData_len self] = Raise IndexError.
Proof.
  destruct (ElementData_init example_comma_sep example_asarray example_nodes) as [self|e] eqn:Hself;
    [|by vm_compute in Hself].
  exists self. split; [reflexivity|].
  apply (type_of_iloc_bounds example_comma_sep example_asarray example_nodes self _ Hself).
  right. reflexivity.
Defined.

(** X8 on the same store: the label ["b1"] has the type ["B"]. *)
Lemma type_of_label_example :
  ∃ self : ElementData (R := unit),
    ElementData_init example_comma_sep example_asarray example_nodes = Ok self ∧
    ∃ i : Z,
      to_iloc example_asarray (ids self) [IdStr "b1"] true true = Ok [i] ∧
      0 ≤ i < ElementData_len self ∧
      type_of_iloc self [i] = Ok [IdStr "B"].
Proof.
  destruct (ElementData_init example_comma_sep example_asarray example_nodes) as [self|e] eqn:Hself;
    [|by vm_compute in Hself].
  exists self. split; [reflexivity|].
  apply (type_of_label example_comma_sep example_asarray example_nodes self "B"
           [(IdStr "b0", ()); (IdStr "b1", ()); (IdStr "b2", ());
            (IdStr "b3", ()); (IdStr "b4", ())] (IdStr "b1") true true Hself).
  - by vm_compute.
  - apply (bool_decide_unpack _). by vm_compute.
Defined.

(** X11 on the node store with one feature per node: the ilocs 0, 1, 2 of
    ["A"], in an 8-bit unsigned array, give back the three feature rows of
    ["A"]. *)
Lemma features_of_whole_range_example :
  ∃ self : NodeData (R := unit) (F := Z),
    NodeData_init example_comma_sep example_asarray example_nodes example_features = Ok self ∧
    features self "A" (mkArray (compact uint8) (seqZ 0 3)) = Ok [[10]; [11]; [12]].
Proof.
  destruct (NodeData_init example_comma_sep example_asarray example_nodes example_features)
    as [self|e] eqn:Hself; [|by vm_compute in Hself].
  assert (HA : type_range (node_element_data self) "A" = Ok (mkRange 0 3)).
  { vm_compute in Hself. injection Hself as <-. by vm_compute. }
  assert (Hlen : ElementData_len (node_element_data self) = 8).
  { vm_compute in Hself. injection Hself as <-. by vm_compute. }
  assert (Hmax : ElementData_len (node_element_data self) ≤ sys_maxsize).
  { rewrite Hlen. by vm_compute. }
  assert (Hu8 : holds_ilocs (compact uint8) (ElementData_len (node_element_data self))).
  { rewrite Hlen. by vm_compute. }
  exists self. split; [reflexivity|].
  apply (features_of_whole_range example_comma_sep example_asarray example_nodes
           example_features self "A" (mkRange 0 3) [[10]; [11]; [12]] (compact uint8)
           Hself Hmax Hu8 HA).
  by vm_compute.
Defined.


(** X14 on the same store and the type name ["f"], which it does not
    have. *)
Lemma queries_on_unknown_type_example :
  ∃ self : EdgeData Z,
    EdgeData_init example_comma_sep example_asarray example_edges 3 = Ok self ∧
    degrees self "f" true true = Raise (KeyError (KeyStr "f")) ∧
    neighbour_ilocs self 0 "f" true true = Raise (KeyError (KeyStr "f")) ∧
    neighbour_weights self 0 "f" true true = Raise (KeyError (KeyStr "f")).
Proof.
  destruct (EdgeData_init example_comma_sep example_asarray example_edges 3) as [self|e] eqn:Hself;
    [|by vm_compute in Hself].
  exists self. split; [reflexivity|].
  apply (queries_on_unknown_type example_comma_sep example_asarray example_edges 3 self "f"
           true true 0 Hself); [by vm_compute|reflexivity].
Defined.

(** X15 on the same store and node 2, which has one self-loop: its
    undirected degree plus 1 is its in-degree plus its out-degree. *)
Lemma undirected_degree_example :
  ∃ self : EdgeData Z,
    EdgeData_init example_comma_sep example_asarray example_edges 3 = Ok self ∧
    ∃ both ins outs : defaultdict_int,
      degrees self "e" true true = Ok both ∧
      degrees self "e" true false = Ok ins ∧
      degrees self "e" false true = Ok outs ∧
      (dd_getitem both 2 + 1 = dd_getitem ins 2 + dd_getitem outs 2)%nat.
Proof.
  destruct (EdgeData_init example_comma_sep example_asarray example_edges 3) as [self|e] eqn:Hself;
    [|by vm_compute in Hself].
  exists self. split; [reflexivity|].
  destruct (undirected_degree example_comma_sep example_asarray example_edges 3 self "e"
              [(IdInt 0, mkEdge 0 1 1); (IdInt 1, mkEdge 1 2 2); (IdInt 2, mkEdge 2 2 3)]
              Hself)
    as (both & ins & outs & Hboth & Hins & Houts & Hdeg); [by vm_compute|].
  exists both, ins, outs. split; [exact Hboth|]. split; [exact Hins|].
  split; [exact Houts|]. exact (Hdeg 2).
Defined.


(** X17 on the same store and the edge labelled 1, from node 1 to node 2
    with weight 2. *)
Lemma edge_columns_by_iloc_example :
  ∃ self : EdgeData Z,
    EdgeData_init example_comma_sep example_asarray example_edges 3 = Ok self ∧
    ∃ i : Z,
      to_iloc example_asarray (ids (edge_element_data self)) [IdInt 1] true false = Ok [i] ∧
      0 ≤ i ∧
      sources self !! Z.to_nat i = Some 1 ∧
      targets self !! Z.to_nat i = Some 2 ∧
      weights self !! Z.to_nat i = Some 2.
Proof.
  destruct (EdgeData_init example_comma_sep example_asarray example_edges 3) as [self|e] eqn:Hself;
    [|by vm_compute in Hself].
  exists self. split; [reflexivity|].
  apply (edge_columns_by_iloc example_comma_sep example_asarray example_edges 3 self "e"
           [(IdInt 0, mkEdge 0 1 1); (IdInt 1, mkEdge 1 2 2); (IdInt 2, mkEdge 2 2 3)]
           (IdInt 1) (mkEdge 1 2 2) true false Hself); [by vm_compute|].
  right. left.
Defined.

(* ================================================================= *)
(** * The empty store, and features by label *)

Section empty_and_labels.

Variable comma_sep : list ident → string.
Variable asarray : list ident → list np_scalar.

Context {R F : Type}.

Lemma sorted_keys_empty {V : Type} : sorted_keys (∅ : gmap string V) = [].
Proof. unfold sorted_keys. by rewrite map_to_list_empty. Qed.

(** X18: constructing a typed store from the empty mapping raises nothing
    and gives a store of length 0 that contains no identifier, has no type
    range and no type codes, and whose [type_of_iloc] raises [IndexError]
    for every iloc. *)
Theorem ElementData_init_empty :
  ∃ self : ElementData (R := R),
    ElementData_init comma_sep asarray ∅ = Ok self ∧
    ElementData_len self = 0 ∧
    (∀ item, ElementData_contains self item = false) ∧
    (∀ t, type_range self t = Raise (KeyError (KeyStr t))) ∧
    type_ilocs self = [] ∧
    len (types self) = 0 ∧
    ∀ i, type_of_iloc self [i] = Raise IndexError.
Proof.
  rewrite ElementData_init_unfold, sorted_keys_empty.
  eexists. split; [reflexivity|]. split; [done|]. split; [done|].
  split; [|split; [done|split; [done|]]].
  - intros t. unfold type_range. cbn [_type_element_ilocs assign_ranges].
    by rewrite dict_getitem_None by apply lookup_empty.
  - intros i. unfold type_of_iloc.
    cbn [_type_column tables_of fmap list_fmap repeat_counts getitem].
    rewrite getitem1_out_of_bounds; [done|]. simpl. lia.
Qed.

(** X19: in a constructed node store of at most [sys.maxsize] elements,
    the features selected by the array that [to_iloc] of [ids] returns for
    the label of row [j] of a type are row [j] of the feature payload of
    that type, with the compact dtype and without it. *)
Theorem features_by_label (shared : gmap string (DataFrame R))
    (feats : gmap string (Tensor F)) (self : NodeData (R := R) (F := F))
    (type_name : string) (df : list (ident * R)) (payload : list (list F))
    (j : nat) (label : ident) (row : R) (smaller_type strict : bool) :
  NodeData_init comma_sep asarray shared feats = Ok self →
  ElementData_len (node_element_data self) ≤ sys_maxsize →
  shared !! type_name = Some df →
  feats !! type_name = Some payload →
  df !! j = Some (label, row) →
  ∃ (i : Z) (id_ilocs : ndarray) (frow : list F),
    to_iloc asarray (ids (node_element_data self)) [label] smaller_type strict = Ok [i] ∧
    to_iloc_array asarray (ids (node_element_data self)) [label] smaller_type strict
      = Ok id_ilocs ∧
    nd_values id_ilocs = [i] ∧
    payload !! j = Some frow ∧
    features self type_name id_ilocs = Ok [frow].
Proof.
  intros (Hbase & Hfeats & Hall)%NodeData_init_Ok Hmax Hdf Hpayload Hj.
  pose proof (Hall _ _ Hpayload) as (r & Hr & Hrows)%check_features_Ok.
  destruct (type_position shared type_name df Hdf) as (k & Hk & Htab).
  pose proof (lookup_lt_Some _ _ _ Hj) as Hlt.
  pose proof (ElementData_init_fields comma_sep asarray _ _ Hbase) as (Hnd & Hidx & Hdt & _).
  assert (type_range (node_element_data self) type_name = Ok r) as Hrange
    by (by apply dict_getitem_Ok).
  destruct (type_range_within comma_sep asarray shared _ type_name r Hbase Hrange)
    as (Hstart & Hle & Hstop).
  pose proof (proj1 (type_range_position comma_sep asarray _ _ _ _ Hbase) Hrange)
    as (k' & df' & Hk' & Hdf' & _ & Heq).
  assert (df' = df) as -> by congruence.
  assert (k' = k) as ->.
  { apply (NoDup_lookup (sorted_keys shared) k' k type_name);
      [apply NoDup_sorted_keys|done..]. }
  assert (range_len r = Z.of_nat (length df)) as Hlen.
  { rewrite Heq. unfold range_len. simpl. lia. }
  assert (start r = offset (tables_of shared (sorted_keys shared)) k) as Hoff
    by (by rewrite Heq).
  destruct (lookup_lt_is_Some_2 payload j) as [frow Hfrow]; [lia|].
  set (i := Z.of_nat (Z.to_nat (start r) + j)).
  assert (to_iloc asarray (ids (node_element_data self)) [label] smaller_type strict
          = Ok [i]) as Hiloc.
  { apply (to_iloc_at comma_sep asarray); [done..|]. unfold ids.
    rewrite Hidx, list_lookup_fmap, Hoff.
    by rewrite (concat_lookup_offset _ k j df), Hj. }
  exists i, (mkArray (if smaller_type
                      then compact (_dtype (ids (node_element_data self)))
                      else intp) [i]), frow.
  split; [done|]. split; [by unfold to_iloc_array; rewrite Hiloc|].
  split; [done|]. split; [done|].
  assert (0 ≤ i - start r < range_len r ∧ i - start r = Z.of_nat j) as [Hin Hij]
    by (unfold i; lia).
  rewrite <- Hfeats in Hpayload.
  destruct (features_offsets self type_name r payload
              (mkArray (if smaller_type
                        then compact (_dtype (ids (node_element_data self)))
                        else intp) [i])
              (ElementData_len (node_element_data self)) Hr Hpayload Hrows
              (conj Hstart Hle) Hstop Hmax) as [_ Hgood].
  - cbn [nd_dtype]. destruct smaller_type; [|done].
    unfold ids, ElementData_len, len. rewrite Hdt.
    apply holds_ilocs_min_scalar_type. by unfold ElementData_len, len in Hmax.
  - apply Forall_singleton. cbn [nd_dtype].
    apply (cast_holds _ (ElementData_len (node_element_data self)));
      [|unfold range_len in *; lia].
    destruct smaller_type; [|done].
    unfold ids, ElementData_len, len. rewrite Hdt.
    apply holds_ilocs_min_scalar_type. by unfold ElementData_len, len in Hmax.
  - rewrite Hgood by (by intros ? ->%list_elem_of_singleton).
    cbn [nd_values fmap list_fmap embedding_lookup]. rewrite Hij.
    rewrite (proj2 (Z.leb_le _ _)) by lia.
    rewrite (proj2 (Z.ltb_lt _ _)) by lia. cbn [andb].
    by rewrite Nat2Z.id, Hfrow.
Qed.

End empty_and_labels.

(** X19 on the node store with one feature per node: the label ["b1"],
    row 1 of ["B"], has the feature row [[21]]. *)
Lemma features_by_label_example :
  ∃ self : NodeData (R := unit) (F := Z),
    NodeData_init example_comma_sep example_asarray example_nodes example_features = Ok self ∧
    ∃ (i : Z) (id_ilocs : ndarray) (frow : list Z),
      to_iloc example_asarray (ids (node_element_data self)) [IdStr "b1"] true true = Ok [i] ∧
      to_iloc_array example_asarray (ids (node_element_data self)) [IdStr "b1"] true true
        = Ok id_ilocs ∧
      nd_values id_ilocs = [i] ∧
      [[20]; [21]; [22]; [23]; [24]] !! 1%nat = Some frow ∧
      features self "B" id_ilocs = Ok [frow].
Proof.
  destruct (NodeData_init example_comma_sep example_asarray example_nodes example_features)
    as [self|e] eqn:Hself; [|by vm_compute in Hself].
  assert (Hmax : ElementData_len (node_element_data self) ≤ sys_maxsize).
  { vm_compute in Hself. injection Hself as <-. by vm_compute. }
  exists self. split; [reflexivity|].
  apply (features_by_label example_comma_sep example_asarray example_nodes
           example_features self "B"
           [(IdStr "b0", ()); (IdStr "b1", ()); (IdStr "b2", ());
            (IdStr "b3", ()); (IdStr "b4", ())]
           [[20]; [21]; [22]; [23]; [24]] 1 (IdStr "b1") () true true Hself Hmax);
    by vm_compute.
Defined.
